(** * FX + crypto aggregation backend: the TTL cache, the two aggregators
      and the route handlers of [src/app.py], embedded as Rocq functions.

    Modelling choices, each taken from the source:
    - In the aggregators and handlers a Python [str] is a [string] whose
      characters are the code points below 256. [str.split(",")] and
      [str.strip] are exact on them; [str.upper] and [str.lower] are the
      ASCII restrictions of the Python methods (code points above 127 are
      left untouched and are outside the modelled domain of the two).
      The parsing of [/crypto] is also given on full Unicode text, as
      lists of code points ([Uni]), and the two agree.
    - Python [float] is the kernel's binary64 [float]; Python [int] is [Z].
    - A decoded JSON body is a [json] tree; a Python [dict] keeps its
      insertion order as an association list with unique keys.
    - [time.time()] and the upstream providers are oracles of the
      environment, indexed by the number of calls made so far.
    - Exceptions are values: a handler returns [Ok v] or [Raise e], and the
      state reached when the exception escaped is kept.
    - A request runs from its first step to its last without another
      request in between: the interleavings the event loop allows at an
      [await] are not part of the model. *)

From Stdlib Require Import ZArith String Ascii List Floats Bool.
From stdpp Require Import gmap strings list sorting.

Local Open Scope string_scope.
Local Open Scope Z_scope.

(** ** Strings *)

Module Str.

(** [c.isspace()] on the code points below 256: TAB, LF, VT, FF, CR, FS,
    GS, RS, US, space, NEL (U+0085) and the no-break space (U+00A0). *)
Definition isspace (c : ascii) : bool :=
  let n := N_of_ascii c in
  ((9 <=? n) && (n <=? 13) || (28 <=? n) && (n <=? 32)
   || (n =? 133) || (n =? 160))%N.

Definition upper_char (c : ascii) : ascii :=
  let n := N_of_ascii c in
  if ((97 <=? n) && (n <=? 122))%N then ascii_of_N (n - 32) else c.

Definition lower_char (c : ascii) : ascii :=
  let n := N_of_ascii c in
  if ((65 <=? n) && (n <=? 90))%N then ascii_of_N (n + 32) else c.

Fixpoint map_chars (f : ascii -> ascii) (s : string) : string :=
  match s with
  | EmptyString => EmptyString
  | String c r => String (f c) (map_chars f r)
  end.

(** [s.upper()] and [s.lower()]. *)
Definition upper (s : string) : string := map_chars upper_char s.
Definition lower (s : string) : string := map_chars lower_char s.

(** [sep.join(l)]. *)
Fixpoint join (sep : string) (l : list string) : string :=
  match l with
  | [] => ""
  | [x] => x
  | x :: r => x +:+ sep +:+ join sep r
  end.

(** [s.split(",")]: one segment more than there are commas, so the empty
    string gives one empty segment. *)
Fixpoint split_comma (s : string) : list string :=
  match s with
  | EmptyString => [""]
  | String c r =>
      if Ascii.eqb c "," then "" :: split_comma r
      else match split_comma r with
           | [] => [String c ""]
           | seg :: segs => String c seg :: segs
           end
  end.

Fixpoint lstrip (s : string) : string :=
  match s with
  | EmptyString => EmptyString
  | String c r => if isspace c then lstrip r else s
  end.

(** Drops trailing whitespace: a character stays when it is not a space or
    when something stays after it. *)
Fixpoint rstrip (s : string) : string :=
  match s with
  | EmptyString => EmptyString
  | String c r =>
      match rstrip r with
      | EmptyString => if isspace c then EmptyString else String c EmptyString
      | r' => String c r'
      end
  end.

(** [s.strip()]. *)
Definition strip (s : string) : string := rstrip (lstrip s).

(** Truth value of a [str]: non-empty. *)
Definition nonempty (s : string) : bool :=
  match s with EmptyString => false | String _ _ => true end.

(** [needle in hay] on two [str]s. *)
Fixpoint contains (needle hay : string) : bool :=
  String.prefix needle hay ||
  match hay with
  | EmptyString => false
  | String _ r => contains needle r
  end.

(** Strings without a lower-case, or without an upper-case, ASCII letter. *)
Definition islower_char (c : ascii) : bool :=
  let n := N_of_ascii c in ((97 <=? n) && (n <=? 122))%N.

Definition isupper_char (c : ascii) : bool :=
  let n := N_of_ascii c in ((65 <=? n) && (n <=? 90))%N.

Fixpoint all_chars (P : ascii -> bool) (s : string) : bool :=
  match s with
  | EmptyString => true
  | String c r => P c && all_chars P r
  end.

Definition no_lower (s : string) : bool :=
  all_chars (fun c => negb (islower_char c)) s.

Definition no_upper (s : string) : bool :=
  all_chars (fun c => negb (isupper_char c)) s.

(** The order [sorted] uses on [str]: lexicographic on code points. *)
Definition le (s1 s2 : string) : Prop := String.leb s1 s2 = true.

#[global] Instance le_dec (s1 s2 : string) : Decision (le s1 s2).
Proof. unfold le. apply _. Defined.

(** [sorted(l)] on a list of [str]: a stable merge sort. *)
Definition sorted (l : list string) : list string := merge_sort le l.

End Str.

(** ** Numbers *)

Module Num.

(** The integer value [±m * 2^e] of a finite float when [0 <= e], and the
    integer numerator over [2^(-e)] otherwise. *)
Definition signed (s : bool) (m : positive) : Z :=
  if s then Z.neg m else Z.pos m.

(** [f < n] for a [float] [f] and an [int] [n]: Python compares the two
    exactly, without rounding [n] to a float. *)
Definition float_lt_int (f : float) (n : Z) : bool :=
  match Prim2SF f with
  | S754_nan => false
  | S754_infinity s => s
  | S754_zero _ => 0 <? n
  | S754_finite s m e =>
      if 0 <=? e then signed s m * 2 ^ e <? n
      else signed s m <? n * 2 ^ (- e)
  end.

(** [float(n)] for an [int] [n]: round to nearest, ties to even;
    [OverflowError] ([None]) when the result is not finite. *)
Definition float_of_int (n : Z) : option float :=
  match binary_normalize prec emax n 0 false with
  | S754_infinity _ | S754_nan => None
  | sf => Some (SF2Prim sf)
  end.

(** [int(f)]: truncation towards zero; [ValueError] on NaN and
    [OverflowError] on an infinity. *)
Variant int_error := IntOfNaN | IntOfInfinity.

Definition int_of_float (f : float) : int_error + Z :=
  match Prim2SF f with
  | S754_nan => inl IntOfNaN
  | S754_infinity _ => inl IntOfInfinity
  | S754_zero _ => inr 0
  | S754_finite s m e =>
      inr (if 0 <=? e then signed s m * 2 ^ e
           else Z.quot (signed s m) (2 ^ (- e)))
  end.

End Num.

(** ** JSON values and Python dictionaries *)

#[local] Unset Elimination Schemes.
Inductive json : Type :=
| JNull
| JBool (b : bool)
| JInt (n : Z)
| JFloat (f : float)
| JStr (s : string)
| JList (l : list json)
| JDict (d : list (string * json)).
#[local] Set Elimination Schemes.

(** A [dict] with [str] keys, in insertion order. *)
Definition dict : Type := list (string * json).

(** [d.get(k)] at the level of the association list. *)
Fixpoint dict_get (k : string) (d : dict) : option json :=
  match d with
  | [] => None
  | (k', v) :: r => if String.eqb k' k then Some v else dict_get k r
  end.

(** Truth value of a [dict]: non-empty. *)
Definition dict_truthy (d : dict) : bool :=
  match d with [] => false | _ :: _ => true end.

(** Truth value of a decoded JSON value ([bool(x)]). *)
Definition truthy (j : json) : bool :=
  match j with
  | JNull => false
  | JBool b => b
  | JInt n => negb (n =? 0)
  | JFloat f => negb (PrimFloat.eqb f 0%float)
  | JStr s => Str.nonempty s
  | JList l => match l with [] => false | _ :: _ => true end
  | JDict d => dict_truthy d
  end.

(** [isinstance(x, dict)]. *)
Definition isinstance_dict (j : json) : bool :=
  match j with JDict _ => true | _ => false end.

(** ** Exceptions and results *)

(** What [fetch_json] can raise: the transport failed, the timeout elapsed,
    [raise_for_status] refused a non-2xx status, or the body is not JSON. *)
Variant fetch_error :=
| ConnectError
| TimeoutException
| HTTPStatusError (status : Z)
| JSONDecodeError.

Variant exn :=
| HTTPException (status_code : Z) (detail : string)
| FetchError (e : fetch_error)
| AttributeError
| TypeError
| KeyError (k : string)
| ValueError
| OverflowError.

Variant result (A : Type) :=
| Ok (a : A)
| Raise (e : exn).
Arguments Ok {A} a.
Arguments Raise {A} e.

(** [x.get(k)] on a decoded JSON value: only a [dict] has the method; a
    missing key gives [None]. *)
Definition json_get (x : json) (k : string) : result json :=
  match x with
  | JDict d => Ok (default JNull (dict_get k d))
  | _ => Raise AttributeError
  end.

(** [d[k]] on a [dict]. *)
Definition dict_getitem (d : dict) (k : string) : result json :=
  match dict_get k d with
  | Some v => Ok v
  | None => Raise (KeyError k)
  end.

(** [x[k]] with a [str] subscript on a decoded JSON value. *)
Definition json_getitem (x : json) (k : string) : result json :=
  match x with
  | JDict d => dict_getitem d k
  | _ => Raise TypeError
  end.

(** [k in x] for a [str] [k]: key membership in a [dict], element
    membership in a [list], substring test in a [str]; the other values
    are not iterable. *)
Definition json_contains (k : string) (x : json) : result bool :=
  match x with
  | JDict d => Ok (bool_decide (is_Some (dict_get k d)))
  | JList l =>
      Ok (existsb (fun j => match j with JStr s => String.eqb s k | _ => false end) l)
  | JStr s => Ok (Str.contains k s)
  | _ => Raise TypeError
  end.

(** [amount * rate] for a [float] [amount]: a [float] or an [int] (also a
    [bool]) operand is multiplied as a float, anything else is a
    [TypeError]. *)
Definition float_mul (amount : float) (rate : json) : result float :=
  match rate with
  | JFloat r => Ok (amount * r)%float
  | JInt n =>
      match Num.float_of_int n with
      | Some r => Ok (amount * r)%float
      | None => Raise OverflowError
      end
  | JBool b => Ok (amount * (if b then 1 else 0))%float
  | _ => Raise TypeError
  end.

(** ** The process state and its environment *)

Variant fetch_outcome :=
| Fetched (body : json)
| FetchFailed (e : fetch_error).

(** The environment: what the [n]-th call of [time.time()] returns and what
    the [n]-th upstream request, for a given URL, results in. *)
Record env := Env {
  clock : nat -> float;
  upstream : nat -> string -> fetch_outcome
}.

(** [class TTLCache]: [self.store] maps a key to [(timestamp, payload)]. *)
Record TTLCache := mkTTLCache {
  store : gmap string (float * dict)
}.

(** The module-level [cache], with the number of clock readings and of
    upstream requests made so far. *)
Record world := World {
  cache : TTLCache;
  ticks : nat;
  fetches : nat
}.

(** [cache = TTLCache()] at start-up. *)
Definition initial_world : world :=
  World (mkTTLCache ∅) 0 0.

(** A computation reads the environment, changes the state and returns or
    raises. *)
Definition M (A : Type) : Type := env -> world -> result A * world.

#[global] Instance M_ret : MRet M := fun A a _ w => (Ok a, w).

#[global] Instance M_bind : MBind M := fun A B k c e w =>
  match c e w with
  | (Ok a, w') => k a e w'
  | (Raise x, w') => (Raise x, w')
  end.

Definition raise {A} (x : exn) : M A := fun _ w => (Raise x, w).

Definition lift {A} (r : result A) : M A := fun _ w => (r, w).

(** [time.time()]. *)
Definition time_time : M float := fun e w =>
  (Ok (clock e (ticks w)), World (cache w) (S (ticks w)) (fetches w)).

(** [int(time.time())]. *)
Definition int_time : M Z :=
  now ← time_time;
  match Num.int_of_float now with
  | inr n => mret n
  | inl Num.IntOfNaN => raise ValueError
  | inl Num.IntOfInfinity => raise OverflowError
  end.

Definition read_cache : M TTLCache := fun _ w => (Ok (cache w), w).

Definition write_cache (c : TTLCache) : M unit := fun _ w =>
  (Ok tt, World c (ticks w) (fetches w)).

(** ** [TTLCache.get] and [TTLCache.set] *)

(** The freshness test of [get]: [time.time() - ts < max_age]. *)
Definition fresh (now ts : float) (max_age : Z) : bool :=
  Num.float_lt_int (now - ts)%float max_age.

(** [TTLCache.get(self, key, max_age)], on the module-level [cache]. The
    clock is read only when the key is in the store. *)
Definition TTLCache_get (key : string) (max_age : Z) : M (option dict) :=
  self ← read_cache;
  match store self !! key with
  | Some (ts, data) =>
      now ← time_time;
      if fresh now ts max_age then mret (Some data) else mret None
  | None => mret None
  end.

(** [TTLCache.set(self, key, data)]. *)
Definition TTLCache_set (key : string) (data : dict) : M unit :=
  now ← time_time;
  self ← read_cache;
  write_cache (mkTTLCache (<[key := (now, data)]> (store self))).

(** [if cached:] on what [get] returned: [None] and an empty [dict] are
    both false. *)
Definition if_cached (cached : option dict) : option dict :=
  match cached with
  | Some d => if dict_truthy d then Some d else None
  | None => None
  end.

(** ** The upstream fetcher *)

(** [fetch_json(url)]: one upstream request, counted in the state. *)
Definition fetch_json (url : string) : M json := fun e w =>
  let w' := World (cache w) (ticks w) (S (fetches w)) in
  match upstream e (fetches w) url with
  | Fetched body => (Ok body, w')
  | FetchFailed err => (Raise (FetchError err), w')
  end.

(** ** The rate aggregator *)

(** The cache key of [get_fiat_rates]: [f"fx:{base}"] after
    [base = base.upper()]. *)
Definition fiat_key (base : string) : string :=
  let base := Str.upper base in
  "fx:" +:+ base.

Definition fiat_url (base : string) : string :=
  "https://api.exchangerate.host/latest?base=" +:+ base.

Definition get_fiat_rates (base : string) : M dict :=
  let base := Str.upper base in
  let key := "fx:" +:+ base in
  cached ← TTLCache_get key (60 * 30);
  match if_cached cached with
  | Some cached => mret cached
  | None =>
      let url := fiat_url base in
      data ← fetch_json url;
      rates ← lift (json_get data "rates");
      if negb (truthy rates) then raise (HTTPException 502 "No rates")
      else
        ts ← int_time;
        let payload := [("base", JStr base); ("rates", rates); ("ts", JInt ts)] in
        TTLCache_set key payload;;
        mret payload
  end.

(** ** The crypto aggregator *)

(** The cache key of [get_crypto_simple], from the lists as the caller
    passed them: both are lower-cased, then sorted and comma-joined. *)
Definition crypto_key (coins vs : list string) : string :=
  let coins := map Str.lower coins in
  let vs := map Str.lower vs in
  "cg:" +:+ Str.join "," (Str.sorted coins) +:+ "|" +:+ Str.join "," (Str.sorted vs).

Definition crypto_url (coins vs : list string) : string :=
  "https://api.coingecko.com/api/v3/simple/price" +:+
  "?ids=" +:+ Str.join "," coins +:+ "&vs_currencies=" +:+ Str.join "," vs.

Definition get_crypto_simple (coins vs : list string) : M dict :=
  let coins := map Str.lower coins in
  let vs := map Str.lower vs in
  let key :=
    "cg:" +:+ Str.join "," (Str.sorted coins) +:+ "|" +:+ Str.join "," (Str.sorted vs) in
  cached ← TTLCache_get key 60;
  match if_cached cached with
  | Some cached => mret cached
  | None =>
      let url := crypto_url coins vs in
      data ← fetch_json url;
      if negb (isinstance_dict data) || negb (truthy data)
      then raise (HTTPException 502 "No crypto data")
      else
        ts ← int_time;
        let payload := [("data", data); ("ts", JInt ts)] in
        TTLCache_set key payload;;
        mret payload
  end.

(** ** The route handlers *)

(** [GET /health]. *)
Definition health : M dict :=
  ts ← int_time;
  mret [("ok", JBool true); ("ts", JInt ts)].

(** [GET /rates]. *)
Definition rates (base : string) : M dict := get_fiat_rates base.

(** [GET /fx]. The dictionary display evaluates [amount * rate] before
    [data["ts"]]. *)
Definition fx (base to : string) (amount : float) : M dict :=
  data ← get_fiat_rates base;
  let to_up := Str.upper to in
  table ← lift (dict_getitem data "rates");
  present ← lift (json_contains to_up table);
  if negb present
  then raise (HTTPException 400 ("Unsupported target: " +:+ to_up))
  else
    rate ← lift (json_getitem table to_up);
    result ← lift (float_mul amount rate);
    ts ← lift (dict_getitem data "ts");
    mret [("base", JStr (Str.upper base)); ("to", JStr to_up); ("rate", rate);
          ("amount", JFloat amount); ("result", JFloat result); ("ts", ts)].

(** The list comprehension of [/crypto]:
    [[c.strip() for c in s.split(",") if c.strip()]]. *)
Definition csv_list (s : string) : list string :=
  map Str.strip (filter (fun c => Str.nonempty (Str.strip c) = true) (Str.split_comma s)).

(** [GET /crypto]. *)
Definition crypto (coins vs : string) : M dict :=
  let coins_list := csv_list coins in
  let vs_list := csv_list vs in
  get_crypto_simple coins_list vs_list.

(** The defaults of the query parameters. *)
Definition default_base : string := "USD".
Definition default_to : string := "NGN".
Definition default_amount : float := 1%float.
Definition default_coins : string := "bitcoin,ethereum,solana,binancecoin".
Definition default_vs : string := "usd,eur,ngn".

(** The two aggregator operations as one request type, for statements that
    hold of both. *)
Variant request :=
| FiatRates (base : string)
| CryptoSimple (coins vs : list string).

Definition serve (r : request) : M dict :=
  match r with
  | FiatRates base => get_fiat_rates base
  | CryptoSimple coins vs => get_crypto_simple coins vs
  end.

Definition key_of (r : request) : string :=
  match r with
  | FiatRates base => fiat_key base
  | CryptoSimple coins vs => crypto_key coins vs
  end.

Definition max_age_of (r : request) : Z :=
  match r with
  | FiatRates _ => 60 * 30
  | CryptoSimple _ _ => 60
  end.

(** The URL a request fetches on a miss. *)
Definition url_of (r : request) : string :=
  match r with
  | FiatRates base => fiat_url (Str.upper base)
  | CryptoSimple coins vs => crypto_url (map Str.lower coins) (map Str.lower vs)
  end.

(** The shape of what the aggregators cache: a non-empty [dict] with an
    integer ["ts"]; ["base"] and ["rates"] for fiat rates, ["data"] for
    crypto prices. *)
Definition has_int_ts (p : dict) : bool :=
  match dict_get "ts" p with Some (JInt _) => true | _ => false end.

Definition has_key (k : string) (p : dict) : bool :=
  bool_decide (is_Some (dict_get k p)).

Definition fiat_payload (p : dict) : bool :=
  dict_truthy p && has_int_ts p && has_key "base" p && has_key "rates" p.

Definition crypto_payload (p : dict) : bool :=
  dict_truthy p && has_int_ts p && has_key "data" p.

Definition payload_of (r : request) (p : dict) : bool :=
  match r with
  | FiatRates _ => fiat_payload p
  | CryptoSimple _ _ => crypto_payload p
  end.

(** The payload a request builds from an upstream body, as the source
    writes it. *)
Definition built_from (r : request) (body : json) (p : dict) : Prop :=
  match r with
  | FiatRates base =>
      ∃ table ts, json_get body "rates" = Ok table ∧ truthy table = true ∧
        p = [("base", JStr (Str.upper base)); ("rates", table); ("ts", JInt ts)]
  | CryptoSimple _ _ =>
      ∃ d ts, body = JDict d ∧ d ≠ [] ∧ p = [("data", body); ("ts", JInt ts)]
  end.

(** A request to one of the routes, and the states the process can be in:
    the start-up state, and what any request leaves behind, whatever the
    clock and the providers do. *)
Variant call :=
| Health
| Rates (base : string)
| Fx (base to : string) (amount : float)
| Crypto (coins vs : string).

Definition handle (c : call) : M dict :=
  match c with
  | Health => health
  | Rates base => rates base
  | Fx base to amount => fx base to amount
  | Crypto coins vs => crypto coins vs
  end.

Inductive reachable : world -> Prop :=
| reachable_start : reachable initial_world
| reachable_handle w c e : reachable w -> reachable (handle c e w).2.

(** Every stored payload was built for the key it is stored under. *)
Definition store_ok (st : gmap string (float * dict)) : Prop :=
  ∀ k t p, st !! k = Some (t, p) → ∃ r, k = key_of r ∧ payload_of r p = true.

(** [get] found nothing the aggregator takes for a hit. *)
Definition cache_miss (key : string) (max_age : Z) (e : env) (w : world) : Prop :=
  ∃ c, (TTLCache_get key max_age e w).1 = Ok c ∧ if_cached c = None.

(** A non-empty key-value mapping. *)
Definition nonempty_mapping (j : json) : Prop :=
  ∃ d, j = JDict d ∧ d ≠ [].

(** The float a JSON number stands for in a product with a [float]. *)
Definition number_value (j : json) : option float :=
  match j with
  | JFloat r => Some r
  | JInt n => Num.float_of_int n
  | _ => None
  end.

(** The crypto cache key as the data model words it: coin ids lower-cased,
    currency codes upper-cased, both lists sorted. Compared below with
    [crypto_key], the key the source computes. *)
Definition spec_crypto_key (coins vs : list string) : string :=
  "cg:" +:+ Str.join "," (Str.sorted (map Str.lower coins)) +:+ "|" +:+
  Str.join "," (Str.sorted (map Str.upper vs)).

(** ** The parsing of [/crypto] on Unicode text *)

(** A Python [str] as the list of its code points, so that every query
    string has a value here. *)
Module Uni.

Definition comma : N := 44%N.

(** [c.isspace()], the test [str.strip()] uses: U+0009..U+000D,
    U+001C..U+0020, U+0085, U+00A0, U+1680, U+2000..U+200A, U+2028,
    U+2029, U+202F, U+205F and U+3000. *)
Definition isspace (c : N) : bool :=
  ((9 <=? c) && (c <=? 13) || (28 <=? c) && (c <=? 32)
   || (c =? 133) || (c =? 160) || (c =? 5760)
   || (8192 <=? c) && (c <=? 8202)
   || (c =? 8232) || (c =? 8233) || (c =? 8239) || (c =? 8287)
   || (c =? 12288))%N.

(** [s.split(",")]. *)
Fixpoint split_comma (s : list N) : list (list N) :=
  match s with
  | [] => [[]]
  | c :: r =>
      if (c =? comma)%N then [] :: split_comma r
      else match split_comma r with
           | [] => [[c]]
           | seg :: segs => (c :: seg) :: segs
           end
  end.

Fixpoint lstrip (s : list N) : list N :=
  match s with
  | [] => []
  | c :: r => if isspace c then lstrip r else s
  end.

Fixpoint rstrip (s : list N) : list N :=
  match s with
  | [] => []
  | c :: r =>
      match rstrip r with
      | [] => if isspace c then [] else [c]
      | r' => c :: r'
      end
  end.

(** [s.strip()]. *)
Definition strip (s : list N) : list N := rstrip (lstrip s).

(** [[c.strip() for c in s.split(",") if c.strip()]]. *)
Definition csv_list (s : list N) : list (list N) :=
  map strip (filter (fun c => strip c ≠ []) (split_comma s)).

(** Whitespace only (the empty string too). *)
Definition blank (s : list N) : bool := forallb isspace s.

(** Neither the first nor the last code point is whitespace. *)
Definition trimmed (s : list N) : bool :=
  match head s, last s with
  | Some a, Some b => negb (isspace a) && negb (isspace b)
  | _, _ => true
  end.

(** [",".join(l)], to say what [split_comma] is the inverse of. *)
Fixpoint join_comma (l : list (list N)) : list N :=
  match l with
  | [] => []
  | [x] => x
  | x :: r => x ++ comma :: join_comma r
  end.

(** The code points of a [string] of the handler model. *)
Fixpoint of_string (s : string) : list N :=
  match s with
  | EmptyString => []
  | String c r => N_of_ascii c :: of_string r
  end.

End Uni.

(** ** The remaining route and predicates used further down *)

(** [GET /]. *)
Definition root : M dict :=
  mret [("message", JStr "Welcome to FX+Crypto API");
        ("docs", JStr "/docs");
        ("endpoints",
         JDict [("health", JStr "/health");
                ("fx_example", JStr "/fx?base=USD&to=NGN&amount=100");
                ("crypto_example", JStr "/crypto?coins=bitcoin,ethereum&vs=usd,ngn");
                ("rates_example", JStr "/rates?base=USD")])].

(** The string holds no occurrence of the character [c]. *)
Definition free_of (c : ascii) (s : string) : bool :=
  Str.all_chars (fun x => negb (Ascii.eqb x c)) s.

(** An id that the crypto key can hold without ambiguity: non-empty, and
    free of the two separators of the key. *)
Definition plain_id (s : string) : Prop :=
  s ≠ "" ∧ free_of "," s = true ∧ free_of "|" s = true.

(** What [get_fiat_rates] and [get_crypto_simple] accept of a fetched
    body: a [dict] with a truthy ["rates"], and a non-empty [dict]. *)
Definition usable_body (r : request) (body : json) : Prop :=
  match r with
  | FiatRates _ => ∃ table, json_get body "rates" = Ok table ∧ truthy table = true
  | CryptoSimple _ _ => nonempty_mapping body
  end.

(** ** Sample environments *)

(** A clock that advances from 1700000000.5, a hundred seconds per
    reading. *)
Definition sample_clock (n : nat) : float :=
  (1700000000.5 + 100 * SF2Prim (binary_normalize prec emax (Z.of_nat n) 0 false))%float.

Definition sample_rates : json :=
  JDict [("base", JStr "USD");
         ("rates", JDict [("EUR", JFloat 0.875); ("NGN", JInt 1500)])].

Definition sample_prices : json :=
  JDict [("bitcoin", JDict [("usd", JInt 65000)])].

(** Both providers answer. *)
Definition env_up : env :=
  Env sample_clock
      (fun _ url => if String.prefix "https://api.exchangerate.host/" url
                    then Fetched sample_rates else Fetched sample_prices).

(** No provider can be reached. *)
Definition env_down : env :=
  Env sample_clock (fun _ _ => FetchFailed ConnectError).

(** The providers answer with a given body. *)
Definition env_body (body : json) : env :=
  Env sample_clock (fun _ _ => Fetched body).

(** * Properties *)

(** ** The definitions on sample inputs *)

Example split_comma_sample : Str.split_comma "a,,b," = ["a"; ""; "b"; ""].
Proof. reflexivity. Qed.

Example strip_sample : Str.strip "  a b   " = "a b" ∧ Str.strip "   " = "".
Proof. split; reflexivity. Qed.

Example case_sample : Str.upper "ngn" = "NGN" ∧ Str.lower "BitCoin" = "bitcoin".
Proof. split; reflexivity. Qed.

Example sorted_sample : Str.sorted ["b"; "a"; "B"; "a"] = ["B"; "a"; "a"; "b"].
Proof. vm_compute. reflexivity. Qed.

(** The freshness test is strict: an entry exactly [max_age] seconds old
    is stale. *)
Example fresh_sample :
  fresh 1700001900.25 1700000100.5 1800 = true
  ∧ fresh 1700001900.5 1700000100.5 1800 = false.
Proof. split; vm_compute; reflexivity. Qed.

Example int_of_float_sample :
  Num.int_of_float 1700000000.5 = inr 1700000000
  ∧ Num.int_of_float (-1.5) = inr (-1)
  ∧ Num.int_of_float nan = inl Num.IntOfNaN.
Proof. split_and!; vm_compute; reflexivity. Qed.

Example float_of_int_sample :
  Num.float_of_int 1500 = Some 1500%float ∧ Num.float_of_int (10 ^ 400) = None.
Proof. split; vm_compute; reflexivity. Qed.

Example rates_sample :
  (rates "usd" env_up initial_world).1
  = Ok [("base", JStr "USD");
        ("rates", JDict [("EUR", JFloat 0.875); ("NGN", JInt 1500)]);
        ("ts", JInt 1700000000)].
Proof. vm_compute. reflexivity. Qed.

Example crypto_sample :
  (crypto "Ethereum, bitcoin" "USD" env_up initial_world).1
  = Ok [("data", JDict [("bitcoin", JDict [("usd", JInt 65000)])]);
        ("ts", JInt 1700000000)]
  ∧ store (cache (crypto "Ethereum, bitcoin" "USD" env_up initial_world).2)
      !! "cg:bitcoin,ethereum|usd"
    = Some (1700000100.5%float,
            [("data", JDict [("bitcoin", JDict [("usd", JInt 65000)])]);
             ("ts", JInt 1700000000)]).
Proof. split; vm_compute; reflexivity. Qed.

(** ** The cache *)

Section Cache.
Variables (e : env) (w : world).

Lemma TTLCache_get_eq key max_age :
  TTLCache_get key max_age e w =
  match store (cache w) !! key with
  | Some (ts, data) =>
      (Ok (if fresh (clock e (ticks w)) ts max_age then Some data else None),
       World (cache w) (S (ticks w)) (fetches w))
  | None => (Ok None, w)
  end.
Proof.
  unfold TTLCache_get, mbind, M_bind, read_cache, time_time, mret, M_ret.
  destruct (store (cache w) !! key) as [[ts data]|]; [|done].
  by destruct (fresh _ _ _).
Qed.

Lemma TTLCache_get_cache key max_age :
  cache (TTLCache_get key max_age e w).2 = cache w.
Proof.
  rewrite TTLCache_get_eq.
  by destruct (store (cache w) !! key) as [[ts data]|].
Qed.

Lemma TTLCache_get_fetches key max_age :
  fetches (TTLCache_get key max_age e w).2 = fetches w.
Proof.
  rewrite TTLCache_get_eq.
  by destruct (store (cache w) !! key) as [[ts data]|].
Qed.

Lemma TTLCache_get_returns key max_age :
  ∃ c, (TTLCache_get key max_age e w).1 = Ok c.
Proof.
  rewrite TTLCache_get_eq.
  destruct (store (cache w) !! key) as [[ts data]|]; eauto.
Qed.

Lemma TTLCache_set_eq key data :
  TTLCache_set key data e w =
  (Ok tt,
   World (mkTTLCache (<[key := (clock e (ticks w), data)]> (store (cache w))))
         (S (ticks w)) (fetches w)).
Proof. reflexivity. Qed.

(** C1. [TTLCache.get(key, max_age)] returns the stored payload exactly
    when the store has an entry for [key] whose timestamp [ts] satisfies
    [now - ts < max_age], [now] being the clock reading of this call; in
    every other case it returns [None]; and it never changes the store,
    so a stale entry stays where it is. *)
Theorem TTLCache_get_fresh_iff key max_age :
  let now := clock e (ticks w) in
  let r := TTLCache_get key max_age e w in
  (∀ data, r.1 = Ok (Some data) ↔
     ∃ ts, store (cache w) !! key = Some (ts, data) ∧ fresh now ts max_age = true)
  ∧ (r.1 = Ok None ↔
     ¬ ∃ ts data, store (cache w) !! key = Some (ts, data) ∧ fresh now ts max_age = true)
  ∧ (r.1 = Ok None ∨ ∃ data, r.1 = Ok (Some data))
  ∧ cache r.2 = cache w.
Proof.
  intros now r. subst r now. rewrite TTLCache_get_eq.
  destruct (store (cache w) !! key) as [[ts data]|] eqn:E; simpl.
  - destruct (fresh (clock e (ticks w)) ts max_age) eqn:F.
    + repeat split.
      * intros [= <-]. eauto.
      * intros (ts' & [= <- <-] & _). done.
      * done.
      * intros H. exfalso. apply H. eauto.
      * right. eauto.
    + repeat split.
      * done.
      * intros (ts' & [= <- <-] & F'). congruence.
      * intros _ (ts' & d' & [= <- <-] & F'). congruence.
      * by left.
  - repeat split.
    + done.
    + intros (ts' & ? & _). done.
    + intros _ (ts' & d' & ? & _). done.
    + by left.
Qed.
End Cache.

(** ** Running the aggregators *)

Ltac run :=
  unfold serve, get_fiat_rates, get_crypto_simple, int_time, fetch_json,
    json_get, lift, raise, mbind, M_bind, mret, M_ret in *;
  rewrite ?TTLCache_get_eq in *;
  cbn beta iota zeta in *.

Section Serve.
Variables (e : env) (w : world) (r : request).

(** A fresh, non-empty entry under the request's key is returned as it
    is: one clock reading, no upstream request, no write. *)
Lemma serve_hit t p :
  store (cache w) !! key_of r = Some (t, p) →
  dict_truthy p = true →
  fresh (clock e (ticks w)) t (max_age_of r) = true →
  serve r e w = (Ok p, World (cache w) (S (ticks w)) (fetches w)).
Proof.
  intros Hk Hp Hf. destruct r; simpl in Hk, Hf; run.
  - unfold fiat_key in Hk. rewrite Hk, Hf. simpl. by rewrite Hp.
  - unfold crypto_key in Hk. rewrite Hk, Hf. simpl. by rewrite Hp.
Qed.

Lemma serve_raise_cache x w' :
  serve r e w = (Raise x, w') → cache w' = cache w.
Proof.
  intros H. destruct r; run.
  all: repeat (case_match; simplify_eq/=); try done.
Qed.

Lemma built_from_payload_of body p :
  built_from r body p → payload_of r p = true.
Proof.
  destruct r; simpl.
  - intros (table & ts & _ & _ & ->). reflexivity.
  - intros (d & ts & _ & _ & ->). reflexivity.
Qed.

(** A successful request is a hit on a fresh non-empty entry, or a miss
    that fetched a body, built the payload from it and stored it under
    the request's key with the last clock reading as timestamp. *)
Lemma serve_ok p w' :
  serve r e w = (Ok p, w') →
  (∃ t, store (cache w) !! key_of r = Some (t, p) ∧ dict_truthy p = true ∧
        fresh (clock e (ticks w)) t (max_age_of r) = true ∧
        w' = World (cache w) (S (ticks w)) (fetches w))
  ∨ (∃ body n, upstream e (fetches w) (url_of r) = Fetched body ∧
        built_from r body p ∧
        fetches w' = S (fetches w) ∧ ticks w' = S n ∧
        cache w' = mkTTLCache (<[key_of r := (clock e n, p)]> (store (cache w)))).
Proof.
  intros H. destruct r; run.
  all: repeat (case_match; simplify_eq/=).
  all: try (left; eexists; split_and!; [eassumption|done..]).
  all: right; do 2 eexists; split_and!; try done; try eassumption.
  all: try (do 2 eexists; split_and!; [done| by apply negb_false_iff |done]).
  all: match goal with H : _ || _ = false |- _ =>
         apply orb_false_iff in H as [Hd Ht];
         apply negb_false_iff in Hd, Ht end.
  all: match goal with H : isinstance_dict ?a = true |- _ => destruct a; try done end.
  all: do 2 eexists; split_and!; [done| |done].
  all: by intros ->.
Qed.
End Serve.

(** ** Failures and repeats *)

(** C4. When [get_fiat_rates] or [get_crypto_simple] fails, whatever the
    exception (the upstream fetch failed, or the payload was missing, empty
    or malformed), the cache is what it was before the call. *)
Theorem failed_request_keeps_cache (r : request) (e : env) (w w' : world) (x : exn) :
  serve r e w = (Raise x, w') → cache w' = cache w.
Proof. apply serve_raise_cache. Qed.

(** C5. After a request that succeeded, its payload is stored under the
    request's key with some timestamp [t] (the last clock reading of the
    request when it went upstream); a second identical request, made in
    any later state that still has that entry and at a clock reading [now]
    with [now - t < max_age] (1800 for fiat rates, 60 for crypto prices),
    returns the same payload, makes no upstream request and leaves the
    cache untouched. *)
Theorem repeat_within_ttl (r : request) (e : env) (w w1 : world) (p : dict) :
  serve r e w = (Ok p, w1) →
  max_age_of r = match r with FiatRates _ => 1800 | CryptoSimple _ _ => 60 end
  ∧ ∃ t, store (cache w1) !! key_of r = Some (t, p)
    ∧ (fetches w1 = S (fetches w) → ∃ n, ticks w1 = S n ∧ t = clock e n)
    ∧ ∀ e2 w2,
        store (cache w2) !! key_of r = Some (t, p) →
        fresh (clock e2 (ticks w2)) t (max_age_of r) = true →
        serve r e2 w2 = (Ok p, World (cache w2) (S (ticks w2)) (fetches w2)).
Proof.
  intros H. split; [by destruct r|].
  apply serve_ok in H as
    [(t & Hk & Hp & Hf & ->)|(body & n & Hu & Hb & Hfe & Hti & Hc)].
  - exists t. split_and!; [done| |].
    + simpl. lia.
    + intros e2 w2 Hk2 Hf2. by apply serve_hit with t.
  - exists (clock e n). split_and!.
    + rewrite Hc. simpl. by rewrite lookup_insert_eq.
    + intros _. exists n. split; [done|reflexivity].
    + intros e2 w2 Hk2 Hf2. apply serve_hit with (clock e n); [done| |done].
      apply built_from_payload_of in Hb.
      destruct r; simpl in Hb; unfold fiat_payload, crypto_payload in Hb;
        by repeat (apply andb_prop in Hb as [Hb ?]).
Qed.

Lemma failed_request_keeps_cache_witness :
  cache (serve (CryptoSimple ["bitcoin"] ["usd"]) (env_body (JDict [])) initial_world).2
  = cache initial_world
  ∧ cache (serve (FiatRates "usd") env_down initial_world).2 = cache initial_world.
Proof.
  split.
  - apply (failed_request_keeps_cache (CryptoSimple ["bitcoin"] ["usd"])
             (env_body (JDict [])) initial_world _ (HTTPException 502 "No crypto data")).
    vm_compute. reflexivity.
  - apply (failed_request_keeps_cache (FiatRates "usd") env_down initial_world _
             (FetchError ConnectError)).
    vm_compute. reflexivity.
Defined.

Lemma repeat_within_ttl_witness :
  let r := FiatRates "usd" in
  let w1 := (serve r env_up initial_world).2 in
  ∃ p, (serve r env_up w1).1 = Ok p ∧ (serve r env_up initial_world).1 = Ok p
       ∧ fetches (serve r env_up w1).2 = fetches w1.
Proof.
  intros r w1.
  destruct (repeat_within_ttl r env_up initial_world w1
              [("base", JStr "USD");
               ("rates", JDict [("EUR", JFloat 0.875); ("NGN", JInt 1500)]);
               ("ts", JInt 1700000000)])
    as (_ & t & Hk & Ht & Hrep).
  { vm_compute. reflexivity. }
  destruct Ht as (n & Hn & ->); [vm_compute; reflexivity|].
  injection Hn as <-.
  eexists. rewrite (Hrep env_up w1 Hk); [|vm_compute; reflexivity].
  split_and!; [reflexivity| vm_compute; reflexivity | reflexivity].
Defined.

(** ** Reachable states *)

Lemma serve_cache (r : request) (e : env) (w : world) :
  cache (serve r e w).2 = cache w
  ∨ ∃ t p, payload_of r p = true ∧ (serve r e w).1 = Ok p ∧
      cache (serve r e w).2 = mkTTLCache (<[key_of r := (t, p)]> (store (cache w))).
Proof.
  destruct (serve r e w) as [[p|x] w'] eqn:E.
  - apply serve_ok in E as
      [(t & _ & _ & _ & ->)|(body & n & _ & Hb & _ & _ & Hc)]; [by left|].
    right. exists (clock e n), p. eauto using built_from_payload_of.
  - left. eauto using serve_raise_cache.
Qed.

(** After [get_fiat_rates], [fx] only computes: the state it leaves is the
    one the aggregator left. *)
Lemma fx_world base to amount (e : env) (w : world) :
  (fx base to amount e w).2 = (get_fiat_rates base e w).2.
Proof.
  unfold fx, mbind, M_bind, lift, raise, mret, M_ret.
  destruct (get_fiat_rates base e w) as [[data|x] w1]; [|done].
  cbn beta iota. by repeat case_match.
Qed.

Lemma health_cache (e : env) (w : world) : cache (health e w).2 = cache w.
Proof.
  unfold health, int_time, mbind, M_bind, raise, mret, M_ret, time_time.
  cbn beta iota. destruct (Num.int_of_float _) as [[]|n]; reflexivity.
Qed.

Lemma store_ok_insert st (r : request) t p :
  store_ok st → payload_of r p = true → store_ok (<[key_of r := (t, p)]> st).
Proof.
  intros Hst Hp k t' p' Hk.
  destruct (decide (key_of r = k)) as [<-|Hne].
  - rewrite lookup_insert_eq in Hk. injection Hk as <- <-. eauto.
  - rewrite lookup_insert_ne in Hk by done. eauto.
Qed.

Lemma serve_store_ok (r : request) (e : env) (w : world) :
  store_ok (store (cache w)) → store_ok (store (cache (serve r e w).2)).
Proof.
  intros Hst. destruct (serve_cache r e w) as [->|(t & p & Hp & _ & ->)]; [done|].
  by apply store_ok_insert.
Qed.

Lemma reachable_store_ok (w : world) :
  reachable w → store_ok (store (cache w)).
Proof.
  induction 1 as [|w c e _ IH].
  - intros k t p Hk. simpl in Hk. by rewrite lookup_empty in Hk.
  - destruct c as [|base|base to amount|coins vs]; simpl.
    + by rewrite health_cache.
    + apply (serve_store_ok (FiatRates base)), IH.
    + rewrite fx_world. apply (serve_store_ok (FiatRates base)), IH.
    + apply (serve_store_ok (CryptoSimple (csv_list coins) (csv_list vs))), IH.
Qed.

Lemma payload_of_truthy (r : request) (p : dict) :
  payload_of r p = true → dict_truthy p = true ∧ has_int_ts p = true.
Proof.
  destruct r; simpl; unfold fiat_payload, crypto_payload; intros H;
    repeat (apply andb_prop in H as [H ?]); done.
Qed.

(** C9. In every reachable state, each stored payload was written by one of
    the two aggregators under its own key and has that aggregator's shape:
    a non-empty [dict] with an integer ["ts"], with ["base"] and ["rates"]
    for fiat rates and with ["data"] for crypto prices. So whatever
    [TTLCache.get] returns there passes the aggregators' [if cached:] test:
    a fresh hit is never taken for a miss. *)
Theorem cached_payloads_well_formed (w : world) :
  reachable w →
  (∀ k t p, store (cache w) !! k = Some (t, p) →
     dict_truthy p = true ∧ has_int_ts p = true ∧
     ∃ r, k = key_of r ∧ payload_of r p = true ∧
          match r with
          | FiatRates _ => has_key "base" p = true ∧ has_key "rates" p = true
          | CryptoSimple _ _ => has_key "data" p = true
          end)
  ∧ (∀ e key max_age d,
       (TTLCache_get key max_age e w).1 = Ok (Some d) → if_cached (Some d) = Some d).
Proof.
  intros Hw. apply reachable_store_ok in Hw.
  assert (∀ k t p, store (cache w) !! k = Some (t, p) → dict_truthy p = true) as Htr.
  { intros k t p Hk. destruct (Hw k t p Hk) as (r & _ & Hp).
    by destruct (payload_of_truthy r p Hp). }
  split.
  - intros k t p Hk. destruct (Hw k t p Hk) as (r & -> & Hp).
    destruct (payload_of_truthy r p Hp) as [? ?]. split_and!; [done..|].
    exists r. split_and!; [done..|].
    destruct r; simpl in Hp; unfold fiat_payload, crypto_payload in Hp;
      repeat (apply andb_prop in Hp as [Hp ?]); done.
  - intros e key max_age d. rewrite TTLCache_get_eq.
    destruct (store (cache w) !! key) as [[ts data]|] eqn:Hk; [|done].
    simpl. destruct (fresh _ _ _); [|done].
    intros [= <-]. simpl. by rewrite (Htr key ts data Hk).
Qed.

Lemma cached_payloads_well_formed_witness :
  let w := (handle (Fx "usd" "ngn" 100) env_up initial_world).2 in
  ∃ t p, store (cache w) !! "fx:USD" = Some (t, p)
         ∧ dict_truthy p = true ∧ has_int_ts p = true
         ∧ (TTLCache_get "fx:USD" 1800 env_up w).1 = Ok (Some p)
         ∧ if_cached (Some p) = Some p.
Proof.
  intros w.
  assert (store (cache w) !! "fx:USD"
          = Some (1700000100.5%float,
                  [("base", JStr "USD");
                   ("rates", JDict [("EUR", JFloat 0.875); ("NGN", JInt 1500)]);
                   ("ts", JInt 1700000000)])) as Hk.
  { vm_compute. reflexivity. }
  destruct (cached_payloads_well_formed w) as [Hst Hget].
  { apply reachable_handle, reachable_start. }
  destruct (Hst _ _ _ Hk) as (Htr & Hts & _).
  do 2 eexists. split_and!; [exact Hk|exact Htr|exact Hts| |].
  - vm_compute. reflexivity.
  - apply (Hget env_up "fx:USD" 1800). vm_compute. reflexivity.
Defined.

(** ** Conversion *)

Lemma serve_ok_payload (r : request) (e : env) (w w' : world) (p : dict) :
  store_ok (store (cache w)) → serve r e w = (Ok p, w') →
  dict_truthy p = true ∧ has_int_ts p = true ∧
  ∃ t, store (cache w') !! key_of r = Some (t, p).
Proof.
  intros Hst H.
  apply serve_ok in H as
    [(t & Hk & Hp & _ & ->)|(body & n & _ & Hb & _ & _ & Hc)].
  - destruct (Hst _ _ _ Hk) as (r' & _ & Hp').
    destruct (payload_of_truthy r' p Hp'). eauto.
  - destruct (payload_of_truthy r p (built_from_payload_of r body p Hb)).
    split_and!; [done..|]. exists (clock e n). rewrite Hc. simpl.
    by rewrite lookup_insert_eq.
Qed.

Lemma float_mul_number amount rate r :
  number_value rate = Some r → float_mul amount rate = Ok (amount * r)%float.
Proof.
  destruct rate; simpl; try done.
  - by intros ->.
  - by intros [= ->].
Qed.

(** C2, as amended. In a reachable state, when [get_fiat_rates] returns a
    payload whose ["rates"] mapping has the upper-cased target with a rate
    that is a JSON number (a float, or an integer in the range of a
    float), [/fx] returns [{base, to, rate, amount, result, ts}] with
    [result = amount * rate] in binary64 arithmetic and with [ts] the
    integer ["ts"] of that payload, which is the payload stored in the
    cache: the conversion reads no clock of its own. *)
Theorem fx_converts base to amount (e : env) (w w1 : world)
    (data table : dict) (rate : json) (r : float) :
  reachable w →
  get_fiat_rates base e w = (Ok data, w1) →
  dict_get "rates" data = Some (JDict table) →
  dict_get (Str.upper to) table = Some rate →
  number_value rate = Some r →
  ∃ ts t,
    dict_get "ts" data = Some (JInt ts) ∧
    store (cache w1) !! fiat_key base = Some (t, data) ∧
    fx base to amount e w =
      (Ok [("base", JStr (Str.upper base)); ("to", JStr (Str.upper to));
           ("rate", rate); ("amount", JFloat amount);
           ("result", JFloat (amount * r)); ("ts", JInt ts)], w1).
Proof.
  intros Hw Hget Hrates Hto Hnum.
  destruct (serve_ok_payload (FiatRates base) e w w1 data) as (_ & Hts & t & Hst);
    [by apply reachable_store_ok|done|].
  unfold has_int_ts in Hts.
  destruct (dict_get "ts" data) as [[| | ts | | | |]|] eqn:Ets; try done.
  exists ts, t. split_and!; [done..|].
  unfold fx, mbind, M_bind, lift, raise, mret, M_ret. rewrite Hget.
  unfold dict_getitem. rewrite Hrates. simpl. unfold dict_getitem.
  rewrite Hto. rewrite bool_decide_eq_true_2 by eauto. simpl.
  rewrite (float_mul_number amount rate r Hnum). by rewrite Ets.
Qed.

(** C6. When [get_fiat_rates] returns a payload whose ["rates"] mapping
    lacks the upper-cased target, [/fx] raises [HTTPException] with status
    400; it returns nothing and raises nothing else. *)
Theorem fx_unsupported_target base to amount (e : env) (w w1 : world)
    (data table : dict) :
  get_fiat_rates base e w = (Ok data, w1) →
  dict_get "rates" data = Some (JDict table) →
  dict_get (Str.upper to) table = None →
  fx base to amount e w =
    (Raise (HTTPException 400 ("Unsupported target: " +:+ Str.upper to)), w1).
Proof.
  intros Hget Hrates Hto.
  unfold fx, mbind, M_bind, lift, raise, mret, M_ret. rewrite Hget.
  unfold dict_getitem. rewrite Hrates. simpl. rewrite Hto.
  rewrite bool_decide_eq_false_2; [done|]. by intros [? ?].
Qed.

Lemma fx_converts_witness :
  let w1 := (handle (Rates "usd") env_up initial_world).2 in
  clock env_up (ticks w1) = 1700000200.5%float
  ∧ (fx "usd" "ngn" 100 env_up w1).1 =
      Ok [("base", JStr "USD"); ("to", JStr "NGN"); ("rate", JInt 1500);
          ("amount", JFloat 100); ("result", JFloat 150000);
          ("ts", JInt 1700000000)].
Proof.
  intros w1. split; [vm_compute; reflexivity|].
  destruct (fx_converts "usd" "ngn" 100 env_up w1 (get_fiat_rates "usd" env_up w1).2
              [("base", JStr "USD");
               ("rates", JDict [("EUR", JFloat 0.875); ("NGN", JInt 1500)]);
               ("ts", JInt 1700000000)]
              [("EUR", JFloat 0.875); ("NGN", JInt 1500)] (JInt 1500) 1500)
    as (ts & t & Hts & _ & Hfx).
  - apply reachable_handle, reachable_start.
  - vm_compute. reflexivity.
  - reflexivity.
  - reflexivity.
  - vm_compute. reflexivity.
  - injection Hts as <-. rewrite Hfx. vm_compute. reflexivity.
Defined.

(** C2, as stated, fails when the rate under the target is not a number the
    product accepts: with [{"NGN": null}] the target is in the rates
    mapping and [/fx] raises [TypeError]; with a 401-digit integer rate it
    raises [OverflowError]. *)
Lemma fx_rate_not_a_number :
  (get_fiat_rates "USD" (env_body (JDict [("rates", JDict [("NGN", JNull)])]))
     initial_world).1
    = Ok [("base", JStr "USD"); ("rates", JDict [("NGN", JNull)]);
          ("ts", JInt 1700000000)]
  ∧ dict_get (Str.upper "NGN") [("NGN", JNull)] = Some JNull
  ∧ (fx "USD" "NGN" 100 (env_body (JDict [("rates", JDict [("NGN", JNull)])]))
       initial_world).1 = Raise TypeError
  ∧ (fx "USD" "NGN" 100
       (env_body (JDict [("rates", JDict [("NGN", JInt (10 ^ 400))])]))
       initial_world).1 = Raise OverflowError.
Proof. split_and!; vm_compute; reflexivity. Qed.

Lemma fx_unsupported_target_witness :
  (fx "usd" "zzz" 1 env_up initial_world).1
  = Raise (HTTPException 400 "Unsupported target: ZZZ").
Proof.
  rewrite (fx_unsupported_target "usd" "zzz" 1 env_up initial_world
             (get_fiat_rates "usd" env_up initial_world).2
             [("base", JStr "USD");
              ("rates", JDict [("EUR", JFloat 0.875); ("NGN", JInt 1500)]);
              ("ts", JInt 1700000000)]
             [("EUR", JFloat 0.875); ("NGN", JInt 1500)]).
  - reflexivity.
  - vm_compute. reflexivity.
  - reflexivity.
  - reflexivity.
Defined.

(** ** Upstream data *)

(** C7. On a cache miss, [get_crypto_simple] raises [HTTPException] with
    status 502 exactly when the fetch returned a body that is not a
    non-empty key-value mapping (for one, [{}]); and a payload it returns
    is never empty: it carries the fetched body, a non-empty mapping, as
    ["data"]. *)
Theorem crypto_bad_gateway_iff (coins vs : list string) (e : env) (w : world) :
  cache_miss (crypto_key coins vs) 60 e w →
  let out := upstream e (fetches w) (crypto_url (map Str.lower coins) (map Str.lower vs)) in
  let res := (get_crypto_simple coins vs e w).1 in
  ((∃ detail, res = Raise (HTTPException 502 detail))
     ↔ ∃ body, out = Fetched body ∧ ¬ nonempty_mapping body)
  ∧ ((∃ body, out = Fetched body ∧ ¬ nonempty_mapping body)
     → res = Raise (HTTPException 502 "No crypto data"))
  ∧ (∀ p, res = Ok p →
       p ≠ [] ∧ ∃ body, out = Fetched body ∧ nonempty_mapping body
                        ∧ dict_get "data" p = Some body).
Proof.
  intros (c & Hc & Hmiss) out res. subst out res.
  assert (∀ body, negb (isinstance_dict body) || negb (truthy body) = false
                  ↔ nonempty_mapping body) as Hne.
  { intros body. unfold nonempty_mapping. split.
    - intros [Hd Ht]%orb_false_iff. apply negb_false_iff in Hd, Ht.
      destruct body as [| | | | | |d]; try done. exists d. split; [done|].
      by intros ->.
    - intros (d & -> & Hd). by destruct d. }
  unfold get_crypto_simple, mbind, M_bind, mret, M_ret, crypto_key in *.
  destruct (TTLCache_get _ 60 e w) as [[c'|x] w1] eqn:Hget; simpl in Hc; [|done].
  injection Hc as ->. rewrite Hmiss.
  assert (fetches w1 = fetches w) as Hf.
  { pose proof (TTLCache_get_fetches e w
      ("cg:" +:+ Str.join "," (Str.sorted (map Str.lower coins)) +:+ "|" +:+
       Str.join "," (Str.sorted (map Str.lower vs))) 60) as Hf.
    by rewrite Hget in Hf. }
  unfold fetch_json. rewrite Hf.
  destruct (upstream e (fetches w) _) as [body|err]; simpl.
  - destruct (negb (isinstance_dict body) || negb (truthy body)) eqn:Hb.
    + assert (¬ nonempty_mapping body) as Hn.
      { intros Hn%Hne. congruence. }
      unfold raise. simpl. split_and!; [split|..]; eauto. done.
    + apply Hne in Hb.
      assert (∀ P : Prop, (∃ b, Fetched body = Fetched b ∧ ¬ nonempty_mapping b) → P)
        as Habs.
      { intros P (b & [= <-] & Hn). done. }
      unfold int_time, mbind, M_bind, mret, M_ret, raise, time_time. cbn beta iota.
      destruct (Num.int_of_float _) as [[]|ts]; simpl.
      all: split_and!; [split; [by intros [? ?]|apply Habs] | apply Habs | ].
      all: intros p [= <-] || intros p [=].
      split; [done|]. exists body. done.
  - split_and!; [split|..].
    + by intros [? ?].
    + by intros (b & ? & _).
    + by intros (b & ? & _).
    + done.
Qed.

Lemma crypto_bad_gateway_iff_witness :
  (get_crypto_simple ["bitcoin"] ["usd"] (env_body (JDict [])) initial_world).1
  = Raise (HTTPException 502 "No crypto data").
Proof.
  apply (crypto_bad_gateway_iff ["bitcoin"] ["usd"] (env_body (JDict [])) initial_world).
  - exists None. split; reflexivity.
  - exists (JDict []). split; [reflexivity|].
    intros (d & [= <-] & Hd). by apply Hd.
Defined.

(** ** Strings and keys *)

Section Strings.

Lemma upper_char_no_lower c : Str.islower_char (Str.upper_char c) = false.
Proof. destruct c as [[] [] [] [] [] [] [] []]; reflexivity. Qed.

Lemma lower_char_no_upper c : Str.isupper_char (Str.lower_char c) = false.
Proof. destruct c as [[] [] [] [] [] [] [] []]; reflexivity. Qed.

Lemma upper_no_lower s : Str.no_lower (Str.upper s) = true.
Proof.
  induction s as [|c s IH]; [done|].
  unfold Str.no_lower, Str.upper in *. simpl.
  by rewrite upper_char_no_lower, IH.
Qed.

Lemma lower_no_upper s : Str.no_upper (Str.lower s) = true.
Proof.
  induction s as [|c s IH]; [done|].
  unfold Str.no_upper, Str.lower in *. simpl.
  by rewrite lower_char_no_upper, IH.
Qed.

Lemma leb_trans s1 s2 s3 :
  String.leb s1 s2 = true → String.leb s2 s3 = true → String.leb s1 s3 = true.
Proof.
  unfold String.leb. revert s2 s3.
  induction s1 as [|a s1 IH]; intros [|b s2] [|c s3]; simpl; try done.
  unfold Ascii.compare.
  destruct (N.compare_spec (N_of_ascii a) (N_of_ascii b)) as [Hab|Hab|Hab],
           (N.compare_spec (N_of_ascii b) (N_of_ascii c)) as [Hbc|Hbc|Hbc],
           (N.compare_spec (N_of_ascii a) (N_of_ascii c)) as [Hac|Hac|Hac];
    try done; try lia.
  apply IH.
Qed.

#[global] Instance le_trans : Transitive Str.le.
Proof. intros s1 s2 s3. apply leb_trans. Qed.

#[global] Instance le_antisym : AntiSymm (=) Str.le.
Proof. intros s1 s2. apply String.leb_antisym. Qed.

#[global] Instance le_total : Total Str.le.
Proof. intros s1 s2. apply String.leb_total. Qed.

Lemma sorted_Sorted l : Sorted Str.le (Str.sorted l).
Proof. apply Sorted_merge_sort, _. Qed.

Lemma sorted_Permutation l : Str.sorted l ≡ₚ l.
Proof. apply merge_sort_Permutation. Qed.

(** [sorted] forgets the order of its argument. *)
Lemma sorted_perm l1 l2 : l1 ≡ₚ l2 → Str.sorted l1 = Str.sorted l2.
Proof.
  intros Hp. apply (Sorted_unique Str.le); [apply sorted_Sorted..|].
  by rewrite !sorted_Permutation.
Qed.
End Strings.

(** C3, as amended. Two crypto requests whose coin lists, and whose
  vs-currency lists, are permutations of each other once lower-cased get
  the same cache key: [get_crypto_simple] reads the same cache entry for
  both, and when that entry is a hit both return the same payload. *)
Theorem crypto_key_permutation (coins1 vs1 coins2 vs2 : list string) :
map Str.lower coins1 ≡ₚ map Str.lower coins2 →
map Str.lower vs1 ≡ₚ map Str.lower vs2 →
crypto_key coins1 vs1 = crypto_key coins2 vs2
∧ ∀ e w, ¬ cache_miss (crypto_key coins1 vs1) 60 e w →
         get_crypto_simple coins1 vs1 e w = get_crypto_simple coins2 vs2 e w.
Proof.
intros Hc Hv.
assert (crypto_key coins1 vs1 = crypto_key coins2 vs2) as Hk.
{ unfold crypto_key. cbn zeta.
  by rewrite (sorted_perm _ _ Hc), (sorted_perm _ _ Hv). }
split; [done|]. intros e w Hhit.
unfold cache_miss in Hhit. unfold crypto_key in Hk, Hhit. cbn zeta in Hk, Hhit.
unfold get_crypto_simple, mbind, M_bind, mret, M_ret. rewrite <- Hk.
destruct (TTLCache_get _ 60 e w) as [[c|x] w1]; [|done].
destruct (if_cached c) eqn:Hc'; [done|].
exfalso. apply Hhit. eauto.
Qed.

Lemma crypto_key_permutation_witness :
crypto_key ["ethereum"; "bitcoin"] ["ngn"; "usd"]
= crypto_key ["Bitcoin"; "ETHEREUM"] ["USD"; "NGN"].
Proof.
apply (crypto_key_permutation ["ethereum"; "bitcoin"] ["ngn"; "usd"]
         ["Bitcoin"; "ETHEREUM"] ["USD"; "NGN"]).
- vm_compute. apply perm_swap.
- vm_compute. apply perm_swap.
Defined.

(** C3, as stated, fails on lists that are equal as sets but not as
  multisets: [sorted] keeps duplicates, so [coins=bitcoin,bitcoin] and
  [coins=bitcoin] get different keys. *)
Lemma crypto_key_duplicates :
(∀ x, x ∈ map Str.lower ["bitcoin"; "bitcoin"] ↔ x ∈ map Str.lower ["bitcoin"])
∧ crypto_key ["bitcoin"; "bitcoin"] ["usd"] = "cg:bitcoin,bitcoin|usd"
∧ crypto_key ["bitcoin"] ["usd"] = "cg:bitcoin|usd"
∧ crypto_key ["bitcoin"; "bitcoin"] ["usd"] ≠ crypto_key ["bitcoin"] ["usd"].
Proof.
split_and!.
- intros x. change (x ∈ ["bitcoin"; "bitcoin"] ↔ x ∈ ["bitcoin"]).
  rewrite !elem_of_cons. tauto.
- vm_compute. reflexivity.
- vm_compute. reflexivity.
- vm_compute. discriminate.
Qed.

(** C8, as amended. The fiat key is ["fx:"] followed by the upper-cased
  base, which holds no lower-case letter. The crypto key is ["cg:"], the
  comma-joined coin ids, ["|"] and the comma-joined vs-currencies, where
  both lists are the request's lists lower-cased (no upper-case letter
  is left in any element) and sorted. *)
Theorem cache_keys_normalised :
(∀ base, fiat_key base = "fx:" +:+ Str.upper base
         ∧ Str.no_lower (Str.upper base) = true)
∧ (∀ coins vs, ∃ cs cur,
     crypto_key coins vs = "cg:" +:+ Str.join "," cs +:+ "|" +:+ Str.join "," cur
     ∧ cs ≡ₚ map Str.lower coins ∧ cur ≡ₚ map Str.lower vs
     ∧ Sorted Str.le cs ∧ Sorted Str.le cur
     ∧ Forall (λ c, Str.no_upper c = true) cs
     ∧ Forall (λ v, Str.no_upper v = true) cur).
Proof.
split.
- intros base. split; [reflexivity|apply upper_no_lower].
- intros coins vs.
  exists (Str.sorted (map Str.lower coins)), (Str.sorted (map Str.lower vs)).
  split_and!; try reflexivity; try apply sorted_Permutation; try apply sorted_Sorted.
  + rewrite sorted_Permutation. apply Forall_fmap, Forall_true. intros c.
    apply lower_no_upper.
  + rewrite sorted_Permutation. apply Forall_fmap, Forall_true. intros c.
    apply lower_no_upper.
Qed.

(** C8, as stated, fails on the crypto vs-currencies: the source lower-cases
  them, so the key of [vs=USD] holds [usd], not [USD]. *)
Lemma crypto_key_currencies_lowercased :
crypto_key ["bitcoin"] ["USD"] = "cg:bitcoin|usd"
∧ spec_crypto_key ["bitcoin"] ["USD"] = "cg:bitcoin|USD"
∧ crypto_key ["bitcoin"] ["USD"] ≠ spec_crypto_key ["bitcoin"] ["USD"]
∧ Str.no_lower "usd" = false.
Proof.
split_and!.
- vm_compute. reflexivity.
- vm_compute. reflexivity.
- vm_compute. discriminate.
- reflexivity.
Qed.

(** ** Comma-separated query parameters *)

Section Csv.

Lemma split_comma_cons s : ∃ seg segs, Str.split_comma s = seg :: segs.
Proof.
  destruct s as [|c s]; simpl; [eauto|].
  destruct (Ascii.eqb c ","); [eauto|].
  destruct (Str.split_comma s); eauto.
Qed.

Lemma join_cons_char sep c seg segs :
  Str.join sep (String c seg :: segs) = String c (Str.join sep (seg :: segs)).
Proof. by destruct segs. Qed.

(** Joining the segments with commas gives the string back. *)
Lemma join_split_comma s : Str.join "," (Str.split_comma s) = s.
Proof.
  induction s as [|c s IH]; [done|]. simpl.
  destruct (Ascii.eqb_spec c ",") as [->|Hc].
  - destruct (split_comma_cons s) as (seg & segs & E). rewrite E in *.
    simpl in *. by rewrite IH.
  - destruct (split_comma_cons s) as (seg & segs & E). rewrite E in *.
    by rewrite join_cons_char, IH.
Qed.

(** No segment holds a comma. *)
Lemma split_comma_free s :
  Forall (λ seg, Str.all_chars (λ c, negb (Ascii.eqb c ",")) seg = true)
         (Str.split_comma s).
Proof.
  induction s as [|c s IH]; simpl; [by repeat constructor|].
  destruct (Ascii.eqb c ",") eqn:Hc; [by constructor|].
  destruct (Str.split_comma s) as [|seg segs].
  { repeat constructor. simpl. by rewrite Hc. }
  inversion_clear IH as [|?? Hseg Hsegs]. constructor; [|done].
  simpl. by rewrite Hc, Hseg.
Qed.

Lemma rstrip_cons c s :
  Str.rstrip (String c s) =
  match Str.rstrip s with
  | EmptyString => if Str.isspace c then EmptyString else String c EmptyString
  | r => String c r
  end.
Proof. reflexivity. Qed.

Lemma rstrip_idemp s : Str.rstrip (Str.rstrip s) = Str.rstrip s.
Proof.
  induction s as [|c s IH]; [done|]. rewrite rstrip_cons.
  destruct (Str.rstrip s) as [|c' s'] eqn:E.
  - destruct (Str.isspace c) eqn:Hc; [done|]. simpl. by rewrite Hc.
  - by rewrite rstrip_cons, IH.
Qed.

(** What [rstrip] keeps of a string that starts with a non-space starts
    with that character. *)
Lemma rstrip_head c s :
  Str.isspace c = false → ∃ s', Str.rstrip (String c s) = String c s'.
Proof. intros Hc. simpl. rewrite Hc. destruct (Str.rstrip s); eauto. Qed.

Lemma lstrip_head s :
  Str.lstrip s = "" ∨ ∃ c s', Str.lstrip s = String c s' ∧ Str.isspace c = false.
Proof.
  induction s as [|c s IH]; [by left|]. simpl.
  destruct (Str.isspace c) eqn:Hc; [done|]. right. eauto.
Qed.

Lemma strip_idemp s : Str.strip (Str.strip s) = Str.strip s.
Proof.
  unfold Str.strip. destruct (lstrip_head s) as [->|(c & s' & -> & Hc)]; [done|].
  destruct (rstrip_head c s' Hc) as (s'' & E).
  assert (Str.lstrip (Str.rstrip (String c s')) = Str.rstrip (String c s')) as ->.
  { rewrite E. simpl. by rewrite Hc. }
  apply rstrip_idemp.
Qed.

Lemma nonempty_true s : Str.nonempty s = true ↔ s ≠ "".
Proof. by destruct s. Qed.

(** Filtering on the stripped segment and then stripping is stripping
    and then dropping the empty strings. *)
Lemma csv_list_eq s :
  csv_list s =
  filter (λ x, Str.nonempty x = true) (map Str.strip (Str.split_comma s)).
Proof.
  unfold csv_list. induction (Str.split_comma s) as [|seg segs IH]; [done|].
  rewrite filter_cons. simpl. rewrite filter_cons.
  destruct (decide (Str.nonempty (Str.strip seg) = true)); simpl; by rewrite IH.
Qed.

Lemma csv_list_elements s :
  Forall (λ x, x ≠ "" ∧ Str.strip x = x) (csv_list s).
Proof.
  rewrite csv_list_eq. apply Forall_forall. intros x.
  rewrite list_elem_of_filter, list_elem_of_fmap.
  intros (Hx & seg & -> & _). split; [by apply nonempty_true|apply strip_idemp].
Qed.

Lemma csv_list_nil s :
  csv_list s = [] ↔ Forall (λ seg, Str.strip seg = "") (Str.split_comma s).
Proof.
  rewrite csv_list_eq. induction (Str.split_comma s) as [|seg segs IH].
  - split; [by constructor|done].
  - simpl. rewrite filter_cons, Forall_cons.
    destruct (decide (Str.nonempty (Str.strip seg) = true)) as [Hn|Hn].
    + split; [done|]. intros [Hs _]. by rewrite Hs in Hn.
    + rewrite IH. split; [|by intros [_ ?]]. intros Hsegs. split; [|done].
      by destruct (Str.strip seg).
Qed.
End Csv.

(** ** The same parsing on Unicode text *)

Section UniCsv.

Lemma uni_split_comma_cons s : ∃ seg segs, Uni.split_comma s = seg :: segs.
Proof.
  destruct s as [|c s]; simpl; [eauto|].
  destruct (c =? Uni.comma)%N; [eauto|].
  destruct (Uni.split_comma s); eauto.
Qed.

Lemma uni_join_cons c seg segs :
  Uni.join_comma ((c :: seg) :: segs) = c :: Uni.join_comma (seg :: segs).
Proof. by destruct segs. Qed.

Lemma uni_join_split s : Uni.join_comma (Uni.split_comma s) = s.
Proof.
  induction s as [|c s IH]; [done|]. simpl.
  destruct (uni_split_comma_cons s) as (seg & segs & E). rewrite E in *.
  destruct (N.eqb_spec c Uni.comma) as [->|Hc].
  - simpl in *. by rewrite IH.
  - by rewrite uni_join_cons, IH.
Qed.

Lemma uni_split_comma_free s : Forall (λ seg, Uni.comma ∉ seg) (Uni.split_comma s).
Proof.
  induction s as [|c s IH]; simpl.
  { repeat constructor. apply not_elem_of_nil. }
  destruct (N.eqb_spec c Uni.comma) as [->|Hc].
  { constructor; [apply not_elem_of_nil|done]. }
  destruct (Uni.split_comma s) as [|seg segs].
  { repeat constructor. rewrite elem_of_cons, elem_of_nil. by intros [?|?]. }
  inversion_clear IH as [|?? Hseg Hsegs]. constructor; [|done].
  rewrite elem_of_cons. by intros [?|?].
Qed.

(** What [lstrip] removes is whitespace, and what it leaves does not start
    with whitespace. *)
Lemma uni_lstrip_spec s :
  ∃ l, s = (l ++ Uni.lstrip s)%list ∧ Uni.blank l = true
       ∧ ∀ c, head (Uni.lstrip s) = Some c → Uni.isspace c = false.
Proof.
  induction s as [|c s (l & Hs & Hl & Hh)]; [by exists []|]. simpl.
  destruct (Uni.isspace c) eqn:Hc.
  - exists (c :: l). split_and!; [by rewrite Hs at 1| |done].
    simpl. by rewrite Hc, Hl.
  - exists []. split_and!; [done..|]. by intros c' [= <-].
Qed.

Lemma uni_rstrip_cons c s :
  Uni.rstrip (c :: s) =
  match Uni.rstrip s with
  | [] => if Uni.isspace c then [] else [c]
  | r => c :: r
  end.
Proof. reflexivity. Qed.

(** What [rstrip] removes is whitespace, what it leaves does not end with
    whitespace, and it keeps a first code point that is not whitespace. *)
Lemma uni_rstrip_spec s :
  ∃ r, s = (Uni.rstrip s ++ r)%list ∧ Uni.blank r = true
       ∧ (∀ c, last (Uni.rstrip s) = Some c → Uni.isspace c = false)
       ∧ (∀ c, head s = Some c → Uni.isspace c = false →
               head (Uni.rstrip s) = Some c).
Proof.
  induction s as [|c s (r & Hs & Hr & Hl & _)]; [by exists []|].
  rewrite uni_rstrip_cons. destruct (Uni.rstrip s) as [|c' s'] eqn:E.
  - destruct (Uni.isspace c) eqn:Hc.
    + exists (c :: r). simpl in Hs. subst s. split_and!; [done| |done|].
      * simpl. by rewrite Hc, Hr.
      * intros c0 [= <-] Hc0. congruence.
    + exists r. simpl in Hs. subst s. split_and!; [done..| |done].
      by intros c0 [= <-].
  - exists r. split_and!; [by rewrite Hs at 1|done| |done].
    intros c0. rewrite last_cons_cons. apply Hl.
Qed.

Lemma uni_blank_app l r : Uni.blank (l ++ r)%list = Uni.blank l && Uni.blank r.
Proof. apply forallb_app. Qed.

Lemma uni_lstrip_blank s : Uni.blank s = true → Uni.lstrip s = [].
Proof.
  induction s as [|c s IH]; [done|]. simpl.
  intros [Hc Hs]%andb_prop. rewrite Hc. by apply IH.
Qed.

(** [strip] takes whitespace, and nothing else, off both ends. *)
Lemma uni_strip_spec s :
  ∃ l r, s = (l ++ Uni.strip s ++ r)%list ∧ Uni.blank l = true ∧ Uni.blank r = true
         ∧ Uni.trimmed (Uni.strip s) = true.
Proof.
  unfold Uni.strip.
  destruct (uni_lstrip_spec s) as (l & Hs & Hl & Hh).
  destruct (uni_rstrip_spec (Uni.lstrip s)) as (r & Hs' & Hr & Hlast & Hhead).
  exists l, r. split_and!; [by rewrite <- Hs'|done..|].
  unfold Uni.trimmed.
  destruct (head (Uni.rstrip (Uni.lstrip s))) as [a|] eqn:Ha; [|done].
  destruct (last (Uni.rstrip (Uni.lstrip s))) as [b|] eqn:Hb; [|done].
  rewrite (Hlast b) by done.
  destruct (Uni.lstrip s) as [|c t] eqn:E; [done|].
  specialize (Hh c eq_refl). pose proof (Hhead c eq_refl Hh) as Hc.
  assert (a = c) as -> by congruence. by rewrite Hh.
Qed.

(** A segment is dropped exactly when it is blank. *)
Lemma uni_strip_nil s : Uni.strip s = [] ↔ Uni.blank s = true.
Proof.
  split.
  - intros E. destruct (uni_strip_spec s) as (l & r & Hs & Hl & Hr & _).
    rewrite E in Hs. rewrite Hs. simpl. by rewrite uni_blank_app, Hl, Hr.
  - intros Hb. unfold Uni.strip. by rewrite uni_lstrip_blank.
Qed.

Lemma uni_csv_list_eq s :
  Uni.csv_list s =
  map Uni.strip (filter (λ seg, Uni.blank seg = false) (Uni.split_comma s)).
Proof.
  unfold Uni.csv_list. f_equal. apply list_filter_iff. intros seg.
  rewrite <- not_true_iff_false. by rewrite uni_strip_nil.
Qed.

Lemma uni_strip_comma_free s : Uni.comma ∉ s → Uni.comma ∉ Uni.strip s.
Proof.
  intros Hs Hin. apply Hs.
  destruct (uni_strip_spec s) as (l & r & E & _). rewrite E.
  rewrite !elem_of_app. auto.
Qed.

Lemma uni_csv_list_elements s :
  Forall (λ x, x ≠ [] ∧ Uni.trimmed x = true ∧ Uni.comma ∉ x) (Uni.csv_list s).
Proof.
  unfold Uni.csv_list. apply Forall_forall. intros x.
  rewrite list_elem_of_fmap. intros (seg & -> & [Hne Hseg]%list_elem_of_filter).
  split_and!; [done| |].
  - by destruct (uni_strip_spec seg) as (l & r & _ & _ & _ & ?).
  - apply uni_strip_comma_free.
    pose proof (uni_split_comma_free s) as Hfree. rewrite Forall_forall in Hfree.
    by apply Hfree.
Qed.

Lemma uni_csv_list_nil s :
  Uni.csv_list s = [] ↔ Forall (λ seg, Uni.blank seg = true) (Uni.split_comma s).
Proof.
  rewrite uni_csv_list_eq. induction (Uni.split_comma s) as [|seg segs IH].
  - split; [by constructor|done].
  - rewrite filter_cons, Forall_cons.
    destruct (decide (Uni.blank seg = false)) as [Hb|Hb]; simpl.
    + split; [done|]. intros [? _]. congruence.
    + rewrite IH. apply not_false_iff_true in Hb.
      split; [by intros ?|by intros [_ ?]].
Qed.

(** The whitespace of [Uni.isspace], one code point at a time. *)
Lemma uni_isspace_iff c :
  Uni.isspace c = true ↔
  c ∈ [9; 10; 11; 12; 13; 28; 29; 30; 31; 32; 133; 160; 5760;
       8192; 8193; 8194; 8195; 8196; 8197; 8198; 8199; 8200; 8201; 8202;
       8232; 8233; 8239; 8287; 12288]%N.
Proof.
  unfold Uni.isspace.
  rewrite !orb_true_iff, !andb_true_iff, !N.leb_le, !N.eqb_eq.
  rewrite !elem_of_cons, elem_of_nil. lia.
Qed.

(** The handler model against the Unicode one, function by function. *)
Lemma isspace_of_ascii c : Uni.isspace (N_of_ascii c) = Str.isspace c.
Proof. destruct c as [[] [] [] [] [] [] [] []]; reflexivity. Qed.

Lemma comma_of_ascii c : (N_of_ascii c =? Uni.comma)%N = Ascii.eqb c ",".
Proof. destruct c as [[] [] [] [] [] [] [] []]; reflexivity. Qed.

Lemma split_comma_of_string s :
  Uni.split_comma (Uni.of_string s) = map Uni.of_string (Str.split_comma s).
Proof.
  induction s as [|c s IH]; [done|]. simpl.
  rewrite comma_of_ascii, IH. destruct (Ascii.eqb c ","); [done|].
  by destruct (Str.split_comma s).
Qed.

Lemma lstrip_of_string s :
  Uni.lstrip (Uni.of_string s) = Uni.of_string (Str.lstrip s).
Proof.
  induction s as [|c s IH]; [done|]. simpl.
  rewrite isspace_of_ascii. by destruct (Str.isspace c).
Qed.

Lemma rstrip_of_string s :
  Uni.rstrip (Uni.of_string s) = Uni.of_string (Str.rstrip s).
Proof.
  induction s as [|c s IH]; [done|].
  rewrite rstrip_cons. change (Uni.of_string (String c s))
    with (N_of_ascii c :: Uni.of_string s).
  rewrite uni_rstrip_cons, IH, isspace_of_ascii.
  destruct (Str.rstrip s); [|done]. by destruct (Str.isspace c).
Qed.

Lemma strip_of_string s :
  Uni.strip (Uni.of_string s) = Uni.of_string (Str.strip s).
Proof. unfold Uni.strip, Str.strip. by rewrite lstrip_of_string, rstrip_of_string. Qed.

Lemma of_string_nil s : Uni.of_string s = [] ↔ s = "".
Proof. by destruct s. Qed.

Lemma csv_list_of_string s :
  map Uni.of_string (csv_list s) = Uni.csv_list (Uni.of_string s).
Proof.
  unfold csv_list, Uni.csv_list. rewrite split_comma_of_string.
  induction (Str.split_comma s) as [|seg segs IH]; [done|].
  simpl. rewrite !filter_cons, strip_of_string.
  destruct (decide (Str.nonempty (Str.strip seg) = true)) as [Hn|Hn];
    destruct (decide (Uni.of_string (Str.strip seg) ≠ [])) as [Hu|Hu].
  - simpl. by rewrite strip_of_string, IH.
  - exfalso. apply Hu. rewrite of_string_nil. by apply nonempty_true.
  - exfalso. apply Hn. apply nonempty_true. by rewrite <- of_string_nil.
  - done.
Qed.
End UniCsv.

(** C10. For every query string, as Unicode text: [/crypto] splits it on
    commas (the segments hold no comma and join back to the string);
    [strip] takes off each segment the whitespace at its two ends and
    nothing else (the segment is whitespace, the stripped segment,
    whitespace, and the stripped segment neither starts nor ends with
    whitespace, for the whitespace [str.strip] knows); the blank segments
    are dropped and the others are kept stripped, so every element
    passed on is non-empty, comma-free, without whitespace at either
    end, and the list is empty exactly when every segment is blank, with
    no error at this layer. The handler passes the two lists so obtained
    to [get_crypto_simple]. *)
Theorem crypto_splits_and_strips :
  (∀ s : list N,
     Uni.join_comma (Uni.split_comma s) = s
     ∧ Forall (λ seg, Uni.comma ∉ seg) (Uni.split_comma s)
     ∧ Uni.csv_list s
       = map Uni.strip (filter (λ seg, Uni.blank seg = false) (Uni.split_comma s))
     ∧ Forall (λ x, x ≠ [] ∧ Uni.trimmed x = true ∧ Uni.comma ∉ x) (Uni.csv_list s)
     ∧ (Uni.csv_list s = [] ↔ Forall (λ seg, Uni.blank seg = true) (Uni.split_comma s)))
  ∧ (∀ seg : list N, ∃ l r,
       seg = (l ++ Uni.strip seg ++ r)%list ∧ Uni.blank l = true ∧ Uni.blank r = true
       ∧ Uni.trimmed (Uni.strip seg) = true)
  ∧ (∀ c : N, Uni.isspace c = true ↔
       c ∈ [9; 10; 11; 12; 13; 28; 29; 30; 31; 32; 133; 160; 5760;
            8192; 8193; 8194; 8195; 8196; 8197; 8198; 8199; 8200; 8201; 8202;
            8232; 8233; 8239; 8287; 12288]%N)
  ∧ (∀ coins vs : string,
       crypto coins vs = get_crypto_simple (csv_list coins) (csv_list vs)
       ∧ map Uni.of_string (csv_list coins) = Uni.csv_list (Uni.of_string coins)
       ∧ map Uni.of_string (csv_list vs) = Uni.csv_list (Uni.of_string vs))
  ∧ csv_list "bitcoin, ,ethereum," = ["bitcoin"; "ethereum"]
  ∧ csv_list "  bitcoin ,  ethereum  " = ["bitcoin"; "ethereum"]
  ∧ Uni.csv_list [8195; 98; 116; 99; 160; 44; 12288; 44; 32; 101; 116; 104; 9]%N
    = [[98; 116; 99]; [101; 116; 104]]%N
  ∧ csv_list "" = []
  ∧ csv_list " , ,," = []
  ∧ (∀ e w, crypto "" " , ,," e w = get_crypto_simple [] [] e w).
Proof.
  split_and!; try reflexivity.
  - intros s.
    split_and!; auto using uni_join_split, uni_split_comma_free, uni_csv_list_eq,
      uni_csv_list_elements.
    apply uni_csv_list_nil.
  - apply uni_strip_spec.
  - apply uni_isspace_iff.
  - intros coins vs. split_and!; [reflexivity|apply csv_list_of_string..].
Qed.

(** * Further properties *)

(** ** Writing and reading the cache *)

(** X1. Insert, then look up: after [set(key, data)], a [get(key, max_age)]
    whose clock reading is less than [max_age] after the reading [set]
    stamped the entry with returns [data], empty or not. *)
Theorem set_then_get (e : env) (w : world) (key : string) (data : dict) (max_age : Z) :
  let w1 := (TTLCache_set key data e w).2 in
  fresh (clock e (ticks w1)) (clock e (ticks w)) max_age = true →
  TTLCache_get key max_age e w1
  = (Ok (Some data), World (cache w1) (S (ticks w1)) (fetches w1)).
Proof.
  intros w1 Hf. subst w1. rewrite TTLCache_get_eq, TTLCache_set_eq in *.
  simpl in *. rewrite lookup_insert_eq. by rewrite Hf.
Qed.

Lemma set_then_get_witness :
  (TTLCache_get "k" 1800 env_up (TTLCache_set "k" [] env_up initial_world).2).1
  = Ok (Some []).
Proof.
  rewrite (set_then_get env_up initial_world "k" [] 1800); [reflexivity|].
  vm_compute. reflexivity.
Defined.

(** X2. [set] replaces one entry wholesale and touches nothing else: the
    other keys keep their entries, no upstream request is made, and of two
    writes to one key only the second is left, with its own timestamp. *)
Theorem set_overwrites_one_key (e : env) (w : world) (key : string) (d1 d2 : dict) :
  let w1 := (TTLCache_set key d1 e w).2 in
  let w2 := (TTLCache_set key d2 e w1).2 in
  (∀ k, k ≠ key → store (cache w1) !! k = store (cache w) !! k)
  ∧ store (cache w1) !! key = Some (clock e (ticks w), d1)
  ∧ fetches w1 = fetches w
  ∧ store (cache w2) = <[key := (clock e (S (ticks w)), d2)]> (store (cache w))
  ∧ dom (store (cache w2)) = dom (store (cache w1)).
Proof.
  intros w1 w2. subst w1 w2. rewrite !TTLCache_set_eq. simpl.
  split_and!.
  - intros k Hk. by rewrite lookup_insert_ne.
  - by rewrite lookup_insert_eq.
  - done.
  - by rewrite insert_insert_eq.
  - by rewrite insert_insert_eq, !dom_insert_L.
Qed.

(** ** Hits and misses *)

(** A miss, read off the store: no entry under the key, or a stale one, or
    an empty payload. *)
Lemma cache_miss_iff key max_age (e : env) (w : world) :
  cache_miss key max_age e w ↔
  match store (cache w) !! key with
  | Some (ts, data) => fresh (clock e (ticks w)) ts max_age && dict_truthy data = false
  | None => True
  end.
Proof.
  unfold cache_miss. rewrite TTLCache_get_eq.
  destruct (store (cache w) !! key) as [[ts data]|]; simpl.
  - destruct (fresh _ _ _); simpl.
    + split.
      * intros (c & [= <-] & Hc). simpl in Hc. by destruct (dict_truthy data).
      * intros Hd. exists (Some data). simpl. by rewrite Hd.
    + split; [done|]. intros _. by exists None.
  - split; [done|]. intros _. by exists None.
Qed.

(** X3. A request goes upstream exactly when the cache read is a miss, and
    then exactly once (there is no retry). On a hit it succeeds, writes
    nothing, and its outcome does not depend on the providers: another
    environment with the same clock reading gives the same result. *)
Theorem one_fetch_iff_miss (r : request) (e : env) (w : world) :
  (cache_miss (key_of r) (max_age_of r) e w →
     fetches (serve r e w).2 = S (fetches w))
  ∧ (¬ cache_miss (key_of r) (max_age_of r) e w →
     fetches (serve r e w).2 = fetches w
     ∧ cache (serve r e w).2 = cache w
     ∧ (∃ p, (serve r e w).1 = Ok p)
     ∧ ∀ e', clock e' (ticks w) = clock e (ticks w) → serve r e' w = serve r e w).
Proof.
  rewrite cache_miss_iff. split.
  - intros Hm. destruct r; simpl in Hm; unfold fiat_key, crypto_key in Hm; run.
    all: destruct (store (cache w) !! _) as [[ts data]|]; simpl in *.
    all: try (destruct (fresh _ _ _); simpl in *; try rewrite Hm).
    all: by repeat (case_match; simplify_eq/=).
  - intros Hh. destruct r; simpl in Hh; unfold fiat_key, crypto_key in Hh; run.
    all: destruct (store (cache w) !! _) as [[ts data]|] eqn:Hk; [|done].
    all: destruct (fresh (clock e (ticks w)) ts _) eqn:Hf; [|done].
    all: destruct (dict_truthy data) eqn:Hd; [|done].
    all: simpl; rewrite Hd; split_and!; eauto.
    all: intros e' He; rewrite TTLCache_get_eq, Hk, He, Hf; simpl; by rewrite Hd.
Qed.

(** X4. On a miss, a failed fetch (no connection, timeout, non-2xx status,
    undecodable body) is not caught: the request ends in the fetcher's own
    exception, never in an [HTTPException], after one upstream request and
    with the cache as it was. *)
Theorem fetch_failure_escapes (r : request) (e : env) (w : world) (err : fetch_error) :
  cache_miss (key_of r) (max_age_of r) e w →
  upstream e (fetches w) (url_of r) = FetchFailed err →
  (serve r e w).1 = Raise (FetchError err)
  ∧ cache (serve r e w).2 = cache w
  ∧ fetches (serve r e w).2 = S (fetches w).
Proof.
  rewrite cache_miss_iff. intros Hm Hu.
  destruct r; simpl in Hm, Hu; unfold fiat_key, crypto_key in Hm; run.
  all: destruct (store (cache w) !! _) as [[ts data]|]; simpl in *.
  all: try (destruct (fresh _ _ _); simpl in *; try rewrite Hm).
  all: cbn [fetches cache ticks]; by rewrite Hu.
Qed.

Lemma fetch_failure_escapes_witness :
  (serve (CryptoSimple ["bitcoin"] ["usd"]) env_down initial_world).1
  = Raise (FetchError ConnectError).
Proof.
  apply (fetch_failure_escapes (CryptoSimple ["bitcoin"] ["usd"]) env_down initial_world
           ConnectError).
  - apply cache_miss_iff. vm_compute. exact I.
  - reflexivity.
Defined.

(** After the cache read of a miss: the aggregator unfolded, with the three
    shapes of the store (no entry, stale entry, empty payload) split off. *)
Ltac miss_run Hm :=
  rewrite cache_miss_iff in Hm; simpl in Hm; unfold fiat_key, crypto_key in Hm;
  run;
  destruct (store (cache _) !! _) as [[? ?]|]; simpl in *;
  try (destruct (fresh _ _ _); simpl in *; try rewrite Hm);
  cbn [fetches cache ticks] in *.

(** X5. On a miss with a fetched body, [get_fiat_rates] raises
    [HTTPException(502, "No rates")] exactly when the body is a [dict]
    whose ["rates"] is missing or false (null, empty, zero); it raises
    [AttributeError], not a 502, exactly when the body is not a [dict]; and
    a payload it returns is the body's truthy ["rates"] under the
    upper-cased base with an integer ["ts"]. *)
Theorem fiat_bad_gateway_iff base (e : env) (w : world) (body : json) :
  cache_miss (fiat_key base) (60 * 30) e w →
  upstream e (fetches w) (fiat_url (Str.upper base)) = Fetched body →
  let res := (get_fiat_rates base e w).1 in
  (res = Raise (HTTPException 502 "No rates")
     ↔ ∃ d, body = JDict d ∧ truthy (default JNull (dict_get "rates" d)) = false)
  ∧ (res = Raise AttributeError ↔ isinstance_dict body = false)
  ∧ (∀ p, res = Ok p →
       ∃ d table ts, body = JDict d ∧ dict_get "rates" d = Some table
         ∧ truthy table = true
         ∧ p = [("base", JStr (Str.upper base)); ("rates", table); ("ts", JInt ts)]).
Proof.
  intros Hm Hu res. subst res. miss_run Hm.
  all: rewrite Hu; cbn beta iota.
  all: destruct body as [| | | | | |bd]; cbn beta iota.
  all: try (split_and!; [split; [done|by intros (? & ? & _)] | done | done]).
  all: destruct (truthy (default JNull (dict_get "rates" bd))) eqn:Ht; simpl.
  all: try (split_and!; [split; [intros _; by eexists|done]|split; done|done]).
  all: destruct (Num.int_of_float _) as [[]|ts]; simpl.
  all: split_and!; try (split; [done|]); try done.
  all: try (intros (d' & [= <-] & Ht'); congruence).
  all: intros p [= <-]; destruct (dict_get "rates" bd) as [table|] eqn:Hr; [|done].
  all: by exists bd, table, ts.
Qed.

Lemma fiat_bad_gateway_iff_witness :
  (get_fiat_rates "usd" (env_body (JDict [("rates", JDict [])])) initial_world).1
  = Raise (HTTPException 502 "No rates")
  ∧ (get_fiat_rates "usd" (env_body (JList [JInt 1])) initial_world).1
    = Raise AttributeError.
Proof.
  split.
  - apply (fiat_bad_gateway_iff "usd" (env_body (JDict [("rates", JDict [])]))
             initial_world (JDict [("rates", JDict [])])).
    + apply cache_miss_iff. vm_compute. exact I.
    + reflexivity.
    + by eexists.
  - apply (fiat_bad_gateway_iff "usd" (env_body (JList [JInt 1]))
             initial_world (JList [JInt 1])).
    + apply cache_miss_iff. vm_compute. exact I.
    + reflexivity.
    + reflexivity.
Defined.

(** X6. A miss with a usable body and a finite clock succeeds. The
    payload's ["ts"] is the integer part of the clock reading taken after
    the fetch, and the entry is stamped with the reading after that one;
    the payload is stored under the request's key and is what is
    returned. *)
Theorem miss_builds_and_stores (r : request) (e : env) (w : world)
    (body : json) (ts : Z) :
  cache_miss (key_of r) (max_age_of r) e w →
  upstream e (fetches w) (url_of r) = Fetched body →
  usable_body r body →
  let w0 := (TTLCache_get (key_of r) (max_age_of r) e w).2 in
  Num.int_of_float (clock e (ticks w0)) = inr ts →
  ∃ p, built_from r body p ∧ dict_get "ts" p = Some (JInt ts)
       ∧ serve r e w =
         (Ok p,
          World (mkTTLCache (<[key_of r := (clock e (S (ticks w0)), p)]> (store (cache w))))
                (S (S (ticks w0))) (S (fetches w))).
Proof.
  intros Hm Hu Hb w0 Hts. subst w0. rewrite TTLCache_get_eq in Hts.
  destruct r as [base|coins vs]; simpl in Hu, Hb.
  - destruct Hb as (table & Hg & Ht).
    exists [("base", JStr (Str.upper base)); ("rates", table); ("ts", JInt ts)].
    split; [by exists table, ts|]. split; [done|].
    rewrite TTLCache_get_eq. simpl key_of in *. simpl max_age_of in *.
    miss_run Hm.
    all: rewrite Hu; cbn beta iota.
    all: destruct body; try done; simpl in Hg; injection Hg as <-.
    all: rewrite Ht; simpl; cbn [ticks] in Hts; by rewrite Hts.
  - destruct Hb as (bd & -> & Hd).
    exists [("data", JDict bd); ("ts", JInt ts)].
    split; [by exists bd, ts|]. split; [done|].
    rewrite TTLCache_get_eq. simpl key_of in *. simpl max_age_of in *.
    miss_run Hm.
    all: rewrite Hu; cbn beta iota.
    all: destruct bd; [done|]; simpl; cbn [ticks] in Hts; by rewrite Hts.
Qed.

Lemma miss_builds_and_stores_witness :
  ∃ p, (serve (CryptoSimple ["Bitcoin"] ["USD"]) env_up initial_world).1 = Ok p
       ∧ dict_get "ts" p = Some (JInt 1700000000)
       ∧ dict_get "data" p = Some sample_prices.
Proof.
  destruct (miss_builds_and_stores (CryptoSimple ["Bitcoin"] ["USD"]) env_up
              initial_world sample_prices 1700000000) as (p & Hb & Hts & Hs).
  - apply cache_miss_iff. vm_compute. exact I.
  - reflexivity.
  - eexists. split; [reflexivity|done].
  - vm_compute. reflexivity.
  - exists p. rewrite Hs. split_and!; [done..|].
    destruct Hb as (d & ts' & _ & _ & ->). reflexivity.
Defined.

(** ** Which requests share a cache entry *)

Section Keys.

Lemma map_chars_app f s t :
  Str.map_chars f (s +:+ t) = Str.map_chars f s +:+ Str.map_chars f t.
Proof. induction s as [|c s IH]; [done|]. simpl. by rewrite IH. Qed.

Lemma lower_char_separator x c :
  c = ","%char ∨ c = "|"%char →
  Ascii.eqb (Str.lower_char x) c = Ascii.eqb x c.
Proof.
  intros [-> | ->]; destruct x as [[] [] [] [] [] [] [] []]; reflexivity.
Qed.

Lemma free_of_lower c s :
  c = ","%char ∨ c = "|"%char → free_of c (Str.lower s) = free_of c s.
Proof.
  intros Hc. induction s as [|x s IH]; [done|].
  unfold free_of, Str.lower in *. simpl.
  by rewrite (lower_char_separator x c Hc), IH.
Qed.

Lemma lower_empty s : Str.lower s = "" ↔ s = "".
Proof. by destruct s. Qed.

Lemma plain_id_lower s : plain_id s → plain_id (Str.lower s).
Proof.
  intros (Hne & Hc & Hp). split_and!.
  - by rewrite lower_empty.
  - rewrite free_of_lower; auto.
  - rewrite free_of_lower; auto.
Qed.

Lemma free_of_app c s t :
  free_of c (s +:+ t) = free_of c s && free_of c t.
Proof.
  induction s as [|x s IH]; [done|]. unfold free_of in *. simpl.
  rewrite IH. by rewrite andb_assoc.
Qed.

Lemma free_of_join c sep l :
  free_of c sep = true → Forall (λ s, free_of c s = true) l →
  free_of c (Str.join sep l) = true.
Proof.
  intros Hsep. induction 1 as [|x l Hx Hl IH]; [done|].
  destruct l as [|y l]; [done|].
  change (free_of c (x +:+ sep +:+ Str.join sep (y :: l)) = true).
  by rewrite !free_of_app, Hx, Hsep, IH.
Qed.

(** A comma-free string in front of a comma is the first segment. *)
Lemma split_comma_app x t :
  free_of "," x = true →
  Str.split_comma (x +:+ String "," t) = x :: Str.split_comma t.
Proof.
  induction x as [|c x IH]; [done|]. unfold free_of. simpl.
  intros [Hc Hx]%andb_prop. apply negb_true_iff in Hc. rewrite Hc.
  by rewrite (IH Hx).
Qed.

Lemma split_comma_plain x :
  free_of "," x = true → Str.split_comma x = [x].
Proof.
  induction x as [|c x IH]; [done|]. unfold free_of. simpl.
  intros [Hc Hx]%andb_prop. apply negb_true_iff in Hc. rewrite Hc.
  by rewrite (IH Hx).
Qed.

(** Splitting undoes joining, for a non-empty list of comma-free strings. *)
Lemma split_comma_join l :
  l ≠ [] → Forall (λ s, free_of "," s = true) l →
  Str.split_comma (Str.join "," l) = l.
Proof.
  intros Hne Hl. induction Hl as [|x l Hx Hl IH]; [done|].
  destruct l as [|y l]; [by apply split_comma_plain|].
  change (Str.split_comma (x +:+ String "," (Str.join "," (y :: l))) = x :: y :: l).
  rewrite split_comma_app by done. by rewrite IH.
Qed.

Lemma join_nonempty sep x l : x ≠ "" → Str.join sep (x :: l) ≠ "".
Proof. destruct x; [done|]. by destruct l. Qed.

Lemma join_inj l1 l2 :
  Forall (λ s, s ≠ "" ∧ free_of "," s = true) l1 →
  Forall (λ s, s ≠ "" ∧ free_of "," s = true) l2 →
  Str.join "," l1 = Str.join "," l2 → l1 = l2.
Proof.
  intros H1 H2 Hj.
  destruct l1 as [|x1 l1], l2 as [|x2 l2]; [done| | |].
  - inversion_clear H2 as [|?? [Hx _] _]. symmetry in Hj.
    by apply join_nonempty in Hj.
  - inversion_clear H1 as [|?? [Hx _] _]. by apply join_nonempty in Hj.
  - rewrite <- (split_comma_join (x1 :: l1)), <- (split_comma_join (x2 :: l2));
      [by rewrite Hj|done| |done|].
    + eapply Forall_impl; [exact H2|]. by intros ? [_ ?].
    + eapply Forall_impl; [exact H1|]. by intros ? [_ ?].
Qed.

(** The first ["|"] of a string splits it in one way only. *)
Lemma pipe_split a1 a2 b1 b2 :
  free_of "|" a1 = true → free_of "|" a2 = true →
  a1 +:+ String "|" b1 = a2 +:+ String "|" b2 → a1 = a2 ∧ b1 = b2.
Proof.
  revert a2. induction a1 as [|c a1 IH]; intros [|c2 a2]; simpl.
  - by intros _ _ [= ->].
  - unfold free_of. simpl. intros _ [Hc _]%andb_prop [= <- _].
    by rewrite Ascii.eqb_refl in Hc.
  - unfold free_of. simpl. intros [Hc _]%andb_prop _ [= -> _].
    by rewrite Ascii.eqb_refl in Hc.
  - unfold free_of in *. simpl.
    intros [_ H1]%andb_prop [_ H2]%andb_prop [= -> Heq].
    destruct (IH a2 H1 H2 Heq) as [-> ->]. done.
Qed.

Lemma sorted_eq_perm l1 l2 : Str.sorted l1 = Str.sorted l2 → l1 ≡ₚ l2.
Proof.
  intros H. by rewrite <- (sorted_Permutation l1), H, sorted_Permutation.
Qed.
End Keys.

(** X9. No false sharing between well-formed crypto requests: when every
    coin id is non-empty and free of [","] and ["|"], and every
    vs-currency is non-empty and free of [","], two requests have the
    same cache key exactly when their lower-cased coin lists are
    permutations of each other and so are their lower-cased vs lists. *)
Theorem crypto_key_eq_iff (coins1 vs1 coins2 vs2 : list string) :
  Forall plain_id coins1 → Forall plain_id coins2 →
  Forall (λ s, s ≠ "" ∧ free_of "," s = true) vs1 →
  Forall (λ s, s ≠ "" ∧ free_of "," s = true) vs2 →
  crypto_key coins1 vs1 = crypto_key coins2 vs2
  ↔ map Str.lower coins1 ≡ₚ map Str.lower coins2
    ∧ map Str.lower vs1 ≡ₚ map Str.lower vs2.
Proof.
  intros Hc1 Hc2 Hv1 Hv2.
  assert (∀ l, Forall plain_id l → Forall plain_id (Str.sorted (map Str.lower l))) as Hpl.
  { intros l Hl. rewrite sorted_Permutation. apply Forall_fmap.
    eapply Forall_impl; [exact Hl|]. intros s. apply plain_id_lower. }
  assert (∀ l, Forall (λ s, s ≠ "" ∧ free_of "," s = true) l →
               Forall (λ s, s ≠ "" ∧ free_of "," s = true)
                      (Str.sorted (map Str.lower l))) as Hcl.
  { intros l Hl. rewrite sorted_Permutation. apply Forall_fmap.
    eapply Forall_impl; [exact Hl|]. intros s [Hne Hf]. simpl. split.
    - by rewrite lower_empty.
    - rewrite free_of_lower; auto. }
  assert (∀ l, Forall plain_id l →
               free_of "|" (Str.join "," (Str.sorted (map Str.lower l))) = true) as Hfree.
  { intros l Hl. apply free_of_join; [done|].
    eapply Forall_impl; [exact (Hpl l Hl)|]. by intros s (_ & _ & ?). }
  unfold crypto_key. cbn zeta. split.
  - intros [= Hk].
    apply pipe_split in Hk as [Hc Hv]; [|by apply Hfree..].
    assert (∀ l, Forall plain_id l →
                 Forall (λ s, s ≠ "" ∧ free_of "," s = true)
                        (Str.sorted (map Str.lower l))) as Hpc.
    { intros l Hl. eapply Forall_impl; [exact (Hpl l Hl)|]. by intros s (? & ? & _). }
    apply join_inj in Hc; [|by apply Hpc..].
    apply join_inj in Hv; [|by apply Hcl..].
    split; by apply sorted_eq_perm.
  - intros [Hc Hv]. by rewrite (sorted_perm _ _ Hc), (sorted_perm _ _ Hv).
Qed.

Lemma crypto_key_eq_iff_witness :
  crypto_key ["Bitcoin"; "ethereum"] ["usd"] = crypto_key ["ETHEREUM"; "bitcoin"] ["USD"]
  ↔ map Str.lower ["Bitcoin"; "ethereum"] ≡ₚ map Str.lower ["ETHEREUM"; "bitcoin"]
    ∧ map Str.lower ["usd"] ≡ₚ map Str.lower ["USD"].
Proof.
  apply (crypto_key_eq_iff ["Bitcoin"; "ethereum"] ["usd"] ["ETHEREUM"; "bitcoin"] ["USD"]).
  all: repeat (apply Forall_cons; split); try apply Forall_nil.
  all: unfold plain_id; try done.
Defined.

Lemma append_assoc (a b c : string) : (a +:+ b) +:+ c = a +:+ (b +:+ c).
Proof.
  induction a as [|x a IH]; [done|].
  change (String x ((a +:+ b) +:+ c) = String x (a +:+ (b +:+ c))).
  by rewrite IH.
Qed.

(** X10. The key does not tell where the coins end when an id holds a
    ["|"]: the request for the one coin [x|y] against [z] and the request
    for the coin [x] against the one currency [y|z] have the same cache
    key, so on a hit the second is answered with the payload cached for
    the first. *)
Theorem crypto_key_pipe_collision (x y z : string) :
  crypto_key [x +:+ "|" +:+ y] [z] = crypto_key [x] [y +:+ "|" +:+ z]
  ∧ ∀ e w, ¬ cache_miss (crypto_key [x] [y +:+ "|" +:+ z]) 60 e w →
           get_crypto_simple [x +:+ "|" +:+ y] [z] e w
           = get_crypto_simple [x] [y +:+ "|" +:+ z] e w.
Proof.
  assert (crypto_key [x +:+ "|" +:+ y] [z] = crypto_key [x] [y +:+ "|" +:+ z]) as Hk.
  { unfold crypto_key, Str.lower. cbn zeta. simpl map.
    change (Str.sorted [?a]) with [a]. simpl Str.join.
    rewrite !map_chars_app. simpl.
    by rewrite append_assoc. }
  split; [done|]. intros e w Hhit.
  unfold cache_miss in Hhit. unfold crypto_key in Hk, Hhit. cbn zeta in Hk, Hhit.
  unfold get_crypto_simple, mbind, M_bind, mret, M_ret. rewrite Hk.
  destruct (TTLCache_get _ 60 e w) as [[c|x0] w1]; [|done].
  destruct (if_cached c) eqn:Hc; [done|].
  exfalso. apply Hhit. eauto.
Qed.

(** X11. Fiat keys: two bases have the same key exactly when they agree
    once upper-cased, and no fiat key is a crypto key, so the two
    aggregators never read or overwrite each other's entries. *)
Theorem fiat_key_eq_iff :
  (∀ base1 base2, fiat_key base1 = fiat_key base2 ↔ Str.upper base1 = Str.upper base2)
  ∧ (∀ base coins vs, fiat_key base ≠ crypto_key coins vs)
  ∧ (∀ base coins vs e w,
       store (cache (get_crypto_simple coins vs e w).2) !! fiat_key base
       = store (cache w) !! fiat_key base)
  ∧ (∀ base coins vs e w,
       store (cache (get_fiat_rates base e w).2) !! crypto_key coins vs
       = store (cache w) !! crypto_key coins vs).
Proof.
  assert (∀ base coins vs, fiat_key base ≠ crypto_key coins vs) as Hne.
  { intros base coins vs. unfold fiat_key, crypto_key. by simpl. }
  split_and!; [|done| |].
  - intros b1 b2. unfold fiat_key. cbn zeta. split; [by intros [= ?]|by intros ->].
  - intros base coins vs e w.
    destruct (serve_cache (CryptoSimple coins vs) e w) as [H|(t & p & _ & _ & H)];
      simpl in H; rewrite H; [done|]. simpl.
    rewrite lookup_insert_ne; [done|]. intros Heq. by apply (Hne base coins vs).
  - intros base coins vs e w.
    destruct (serve_cache (FiatRates base) e w) as [H|(t & p & _ & _ & H)];
      simpl in H; rewrite H; [done|]. simpl.
    rewrite lookup_insert_ne; [done|]. apply Hne.
Qed.

(** X8. The aggregators and [/fx] see their parameters only through the
    normalised form: bases (and targets) that agree once upper-cased, and
    coin and currency lists that agree once lower-cased, give the same
    computation: same result, same upstream URL, same final state. *)
Theorem requests_case_insensitive :
  (∀ base1 base2, Str.upper base1 = Str.upper base2 →
     get_fiat_rates base1 = get_fiat_rates base2)
  ∧ (∀ base1 base2 to1 to2 amount,
       Str.upper base1 = Str.upper base2 → Str.upper to1 = Str.upper to2 →
       fx base1 to1 amount = fx base2 to2 amount)
  ∧ (∀ coins1 coins2 vs1 vs2,
       map Str.lower coins1 = map Str.lower coins2 →
       map Str.lower vs1 = map Str.lower vs2 →
       get_crypto_simple coins1 vs1 = get_crypto_simple coins2 vs2).
Proof.
  assert (∀ base1 base2, Str.upper base1 = Str.upper base2 →
            get_fiat_rates base1 = get_fiat_rates base2) as Hf.
  { intros b1 b2 Hb. unfold get_fiat_rates. cbn zeta. by rewrite Hb. }
  split_and!; [done| |].
  - intros b1 b2 t1 t2 amount Hb Ht. unfold fx.
    by rewrite (Hf b1 b2 Hb), Hb, Ht.
  - intros c1 c2 v1 v2 Hc Hv. unfold get_crypto_simple. cbn zeta. by rewrite Hc, Hv.
Qed.

(** ** Comma-separated lists, there and back *)

Section CsvRoundTrip.

Lemma all_chars_lstrip P s :
  Str.all_chars P s = true → Str.all_chars P (Str.lstrip s) = true.
Proof.
  induction s as [|c s IH]; [done|]. simpl.
  intros [Hc Hs]%andb_prop. destruct (Str.isspace c); [by apply IH|].
  simpl. by rewrite Hc, Hs.
Qed.

Lemma all_chars_rstrip P s :
  Str.all_chars P s = true → Str.all_chars P (Str.rstrip s) = true.
Proof.
  induction s as [|c s IH]; [done|]. rewrite rstrip_cons. simpl.
  intros [Hc Hs]%andb_prop. specialize (IH Hs).
  destruct (Str.rstrip s) as [|c' s'].
  - destruct (Str.isspace c); [done|]. simpl. by rewrite Hc.
  - change (P c && Str.all_chars P (String c' s') = true). by rewrite Hc, IH.
Qed.

Lemma csv_list_comma_free s :
  Forall (λ x, free_of "," x = true) (csv_list s).
Proof.
  rewrite csv_list_eq. apply Forall_forall. intros x.
  rewrite list_elem_of_filter, list_elem_of_fmap.
  intros (_ & seg & -> & Hseg).
  pose proof (split_comma_free s) as Hfree. rewrite Forall_forall in Hfree.
  apply all_chars_rstrip, all_chars_lstrip, Hfree, Hseg.
Qed.

Lemma filter_strip_id l :
  Forall (λ x, x ≠ "" ∧ Str.strip x = x) l →
  filter (λ x, Str.nonempty x = true) (map Str.strip l) = l.
Proof.
  induction 1 as [|x l [Hne Hx] _ IH]; [done|].
  simpl. rewrite filter_cons, Hx, IH.
  destruct (decide (Str.nonempty x = true)) as [|Hn]; [done|].
  exfalso. apply Hn. by apply nonempty_true.
Qed.
End CsvRoundTrip.

(** X12. Parsing undoes joining: a list of non-empty, comma-free,
    already stripped strings, joined with commas, is parsed back to the
    same list by the comprehension of [/crypto]; so re-joining and
    re-parsing what was parsed changes nothing. *)
Theorem csv_list_round_trip :
  (∀ l, Forall (λ x, x ≠ "" ∧ free_of "," x = true ∧ Str.strip x = x) l →
        csv_list (Str.join "," l) = l)
  ∧ (∀ s, csv_list (Str.join "," (csv_list s)) = csv_list s).
Proof.
  assert (∀ l, Forall (λ x, x ≠ "" ∧ free_of "," x = true ∧ Str.strip x = x) l →
               csv_list (Str.join "," l) = l) as Hrt.
  { intros l Hl. destruct l as [|x l]; [reflexivity|].
    rewrite csv_list_eq, split_comma_join; [|done|].
    - apply filter_strip_id. eapply Forall_impl; [exact Hl|]. by intros ? (? & _ & ?).
    - eapply Forall_impl; [exact Hl|]. by intros ? (_ & ? & _). }
  split; [done|]. intros s. apply Hrt.
  pose proof (csv_list_elements s) as H1. pose proof (csv_list_comma_free s) as H2.
  rewrite Forall_forall in *. intros x Hx. destruct (H1 x Hx). split_and!; auto.
Qed.

(** ** What a request does to the state *)

(** X13. No handler evicts: every key that had an entry before a request
    has one after it, and the store after the request is either the store
    before it or that store with one entry written. Stale entries stay
    until their own key is written again. *)
Theorem handlers_never_evict (c : call) (e : env) (w : world) :
  (∀ k, is_Some (store (cache w) !! k) →
        is_Some (store (cache (handle c e w).2) !! k))
  ∧ (cache (handle c e w).2 = cache w
     ∨ ∃ k v, store (cache (handle c e w).2) = <[k := v]> (store (cache w))).
Proof.
  assert (cache (handle c e w).2 = cache w
          ∨ ∃ k v, store (cache (handle c e w).2) = <[k := v]> (store (cache w))) as H.
  { destruct c as [|base|base to amount|coins vs]; simpl; unfold rates, crypto.
    - left. apply health_cache.
    - destruct (serve_cache (FiatRates base) e w) as [?|(t & p & _ & _ & Hc)];
        [by left|right]. simpl in Hc. rewrite Hc. eauto.
    - rewrite fx_world.
      destruct (serve_cache (FiatRates base) e w) as [?|(t & p & _ & _ & Hc)];
        [by left|right]. simpl in Hc. rewrite Hc. eauto.
    - destruct (serve_cache (CryptoSimple (csv_list coins) (csv_list vs)) e w)
        as [?|(t & p & _ & _ & Hc)]; [by left|right].
      simpl in Hc. rewrite Hc. eauto. }
  split; [|done]. intros k Hk.
  destruct H as [->|(k' & v & ->)]; [done|].
  destruct (decide (k' = k)) as [->|Hne].
  - rewrite lookup_insert_eq. eauto.
  - by rewrite lookup_insert_ne.
Qed.

(** X15. A request contacts a provider at most once and reads the clock at
    most three times (once in [get], once for ["ts"], once in [set]); the
    two counters never go back. *)
Theorem handler_effort (c : call) (e : env) (w : world) :
  (fetches w ≤ fetches (handle c e w).2 ≤ fetches w + 1)%nat
  ∧ (ticks w ≤ ticks (handle c e w).2 ≤ ticks w + 3)%nat.
Proof.
  assert (∀ r, (fetches w ≤ fetches (serve r e w).2 ≤ fetches w + 1)%nat
               ∧ (ticks w ≤ ticks (serve r e w).2 ≤ ticks w + 3)%nat) as Hs.
  { intros r. destruct r; run.
    all: repeat (case_match; simplify_eq/=); lia. }
  destruct c as [|base|base to amount|coins vs]; simpl.
  - unfold health, int_time, mbind, M_bind, raise, mret, M_ret, time_time.
    cbn beta iota. destruct (Num.int_of_float _) as [[]|n]; simpl; lia.
  - apply (Hs (FiatRates base)).
  - rewrite fx_world. apply (Hs (FiatRates base)).
  - apply (Hs (CryptoSimple (csv_list coins) (csv_list vs))).
Qed.

(** ** What [/fx] and [/health] can answer *)

(** In a reachable state what [get_fiat_rates] returns has the fiat shape:
    the entry under a fiat key was written by [get_fiat_rates]. *)
Lemma reachable_fiat_payload base (e : env) (w w1 : world) (data : dict) :
  reachable w → get_fiat_rates base e w = (Ok data, w1) → fiat_payload data = true.
Proof.
  intros Hw Hget. apply reachable_store_ok in Hw.
  apply (serve_ok e w (FiatRates base)) in Hget as
    [(t & Hk & _)|(body & n & _ & Hb & _)].
  - destruct (Hw _ _ _ Hk) as ([b|coins vs] & Hkey & Hp); [done|].
    simpl in Hkey. unfold fiat_key, crypto_key in Hkey. by simpl in Hkey.
  - by apply (built_from_payload_of (FiatRates base)) in Hb.
Qed.

(** X7. In a reachable state [/fx] never fails on its own payload: it
    raises no [KeyError] for ["rates"] or ["ts"]. Either it passes on the
    exception of [get_fiat_rates]; or it raises 400 for a target that is
    not in the rates, or [TypeError] or [OverflowError] for a rates value
    or a rate the product does not take; or it returns the six fields
    with both codes upper-cased, an integer ["ts"] and
    [result = amount * rate]. Whatever the outcome, the state is the one
    [get_fiat_rates] left. *)
Theorem fx_outcomes base to amount (e : env) (w : world) :
  reachable w →
  (fx base to amount e w).2 = (get_fiat_rates base e w).2
  ∧ match (fx base to amount e w).1 with
    | Ok d =>
        ∃ rate result ts,
          float_mul amount rate = Ok result ∧
          d = [("base", JStr (Str.upper base)); ("to", JStr (Str.upper to));
               ("rate", rate); ("amount", JFloat amount);
               ("result", JFloat result); ("ts", JInt ts)]
    | Raise x =>
        (get_fiat_rates base e w).1 = Raise x
        ∨ (∃ data, (get_fiat_rates base e w).1 = Ok data)
          ∧ (x = HTTPException 400 ("Unsupported target: " +:+ Str.upper to)
             ∨ x = TypeError ∨ x = OverflowError)
    end.
Proof.
  intros Hw. split; [apply fx_world|].
  unfold fx, mbind, M_bind, lift, raise, mret, M_ret.
  destruct (get_fiat_rates base e w) as [[data|x] w1] eqn:Hget; [|by left].
  pose proof (reachable_fiat_payload base e w w1 data Hw Hget) as Hp.
  unfold fiat_payload, has_int_ts, has_key in Hp.
  apply andb_prop in Hp as [[[_ Hts]%andb_prop _]%andb_prop Hr].
  apply bool_decide_eq_true_1 in Hr as [table Hr].
  destruct (dict_get "ts" data) as [[| |ts| | | |]|] eqn:Ets; try done.
  cbn beta iota. unfold dict_getitem at 1. rewrite Hr. cbn beta iota.
  destruct (json_contains (Str.upper to) table) as [[]|x] eqn:Hin; simpl.
  - destruct (json_getitem table (Str.upper to)) as [rate|x] eqn:Hrate; simpl.
    + destruct (float_mul amount rate) as [result|x] eqn:Hmul; simpl.
      * unfold dict_getitem. rewrite Ets. simpl. by exists rate, result, ts.
      * right. split; [eauto|].
        destruct rate; simpl in Hmul; try (injection Hmul as <-; auto); try done.
        destruct (Num.float_of_int n); [done|]. injection Hmul as <-. auto.
    + right. split; [eauto|].
      destruct table; simpl in Hrate, Hin; try (injection Hrate as <-; auto).
      unfold dict_getitem in Hrate. injection Hin as Hin.
      apply bool_decide_eq_true_1 in Hin as [v Hv]. by rewrite Hv in Hrate.
  - right. split; eauto.
  - right. split; [eauto|].
    destruct table; simpl in Hin; try done; injection Hin as <-; auto.
Qed.

Lemma fx_outcomes_witness :
  (fx "usd" "zzz" 1 env_up initial_world).2
  = (get_fiat_rates "usd" env_up initial_world).2.
Proof.
  apply (fx_outcomes "usd" "zzz" 1 env_up initial_world). apply reachable_start.
Defined.

(** X14. [/health] depends on nothing but the clock: it leaves the cache
    alone and contacts no provider, answers [{ok: true, ts}] with the
    integer part of the clock reading, and fails only on a reading that
    [int] rejects (NaN or an infinity). [/] answers one constant
    directory and touches nothing, not even the clock. *)
Theorem health_and_root (e : env) (w : world) :
  cache (health e w).2 = cache w
  ∧ fetches (health e w).2 = fetches w
  ∧ (∀ n, Num.int_of_float (clock e (ticks w)) = inr n →
          (health e w).1 = Ok [("ok", JBool true); ("ts", JInt n)])
  ∧ (∀ x, (health e w).1 = Raise x →
          (x = ValueError ∨ x = OverflowError)
          ∧ ∃ err, Num.int_of_float (clock e (ticks w)) = inl err)
  ∧ (root e w).2 = w
  ∧ ∃ d, (root e w).1 = Ok d
         ∧ dict_get "endpoints" d
           = Some (JDict [("health", JStr "/health");
                          ("fx_example", JStr "/fx?base=USD&to=NGN&amount=100");
                          ("crypto_example",
                           JStr "/crypto?coins=bitcoin,ethereum&vs=usd,ngn");
                          ("rates_example", JStr "/rates?base=USD")]).
Proof.
  unfold health, int_time, mbind, M_bind, raise, mret, M_ret, time_time.
  cbn beta iota.
  destruct (Num.int_of_float (clock e (ticks w))) as [[]|n]; simpl.
  all: split_and!; try done; eauto.
  all: try (intros x [= <-]; eauto).
  all: by intros n' [= ->].
Qed.

(** ** What a request depends on *)

(** X17. A request sees the providers through one query only: two
    environments with the same clock that answer the request's URL (for
    crypto prices the lower-cased ids and currencies in the order given,
    not sorted) alike at this request's turn give the same result and the
    same final state, whatever else they answer. *)
Theorem serve_one_query (r : request) (e e' : env) (w : world) :
  (∀ n, clock e' n = clock e n) →
  upstream e' (fetches w) (url_of r) = upstream e (fetches w) (url_of r) →
  serve r e' w = serve r e w.
Proof.
  intros Hc Hu. destruct r; simpl in Hu; run.
  all: rewrite !Hc.
  all: destruct (store (cache w) !! _) as [[ts data]|]; cbn beta iota.
  all: try destruct (fresh _ _ _); cbn [if_cached].
  all: try destruct (dict_truthy data); try done.
  all: cbn [fetches cache ticks]; rewrite Hu.
  all: destruct (upstream e (fetches w) _) as [body|err]; [|done].
  all: cbn beta iota.
  all: repeat (case_match; simplify_eq/=; try done).
  all: cbn [fetches cache ticks] in *; rewrite ?Hc in *; congruence.
Qed.

Lemma serve_one_query_witness :
  serve (CryptoSimple ["bitcoin"] ["usd"]) (env_body sample_prices) initial_world
  = serve (CryptoSimple ["bitcoin"] ["usd"]) env_up initial_world.
Proof.
  apply (serve_one_query (CryptoSimple ["bitcoin"] ["usd"])
           env_up (env_body sample_prices) initial_world).
  - reflexivity.
  - reflexivity.
Defined.

(** ** Normal forms *)

Lemma lower_char_idemp c : Str.lower_char (Str.lower_char c) = Str.lower_char c.
Proof. destruct c as [[] [] [] [] [] [] [] []]; reflexivity. Qed.

Lemma upper_char_idemp c : Str.upper_char (Str.upper_char c) = Str.upper_char c.
Proof. destruct c as [[] [] [] [] [] [] [] []]; reflexivity. Qed.

Lemma lower_idemp s : Str.lower (Str.lower s) = Str.lower s.
Proof.
  induction s as [|c s IH]; [done|]. unfold Str.lower in *. simpl.
  by rewrite lower_char_idemp, IH.
Qed.

Lemma upper_idemp s : Str.upper (Str.upper s) = Str.upper s.
Proof.
  induction s as [|c s IH]; [done|]. unfold Str.upper in *. simpl.
  by rewrite upper_char_idemp, IH.
Qed.

(** X16. Normalising twice is normalising once: the key of a request that
    is already upper-cased (fiat), or already lower-cased and sorted
    (crypto), is the key of the request it was normalised from, and the
    payload of [get_fiat_rates] carries, as ["base"], a base that
    [get_fiat_rates] maps to the same key. *)
Theorem keys_of_normal_forms :
  (∀ base, fiat_key (Str.upper base) = fiat_key base)
  ∧ (∀ coins vs,
       crypto_key (Str.sorted (map Str.lower coins)) (Str.sorted (map Str.lower vs))
       = crypto_key coins vs)
  ∧ (∀ base e w p w1 b,
       get_fiat_rates base e w = (Ok p, w1) → fetches w1 = S (fetches w) →
       dict_get "base" p = Some (JStr b) → fiat_key b = fiat_key base).
Proof.
  assert (∀ l, Str.sorted (map Str.lower (Str.sorted (map Str.lower l)))
               = Str.sorted (map Str.lower l)) as Hs.
  { intros l. apply sorted_perm. rewrite sorted_Permutation.
    rewrite <- list_fmap_compose.
    erewrite list_fmap_ext; [reflexivity|]. intros i x _. apply lower_idemp. }
  split_and!.
  - intros base. unfold fiat_key. cbn zeta. by rewrite upper_idemp.
  - intros coins vs. unfold crypto_key. cbn zeta. by rewrite !Hs.
  - intros base e w p w1 b Hget Hf Hb.
    apply (serve_ok e w (FiatRates base)) in Hget as
      [(t & _ & _ & _ & ->)|(body & n & _ & (table & ts & _ & _ & ->) & _)].
    + simpl in Hf. lia.
    + simpl in Hb. injection Hb as <-. unfold fiat_key. cbn zeta.
      by rewrite upper_idemp.
Qed.
